(** * Kernel timer recovery (timers.py): a shallow embedding and its properties

    The definitions follow the plugin section by section:
    - [Bits]       the 64-bit helpers used by the callback decoder;
    - [Objects]    framework objects, their parent chain and dynamic attributes;
    - [Framework]  the services the plugin calls into (image, modules, reads);
    - [Ktimer]     the [_KTIMER.Dpc] property;
    - [Resolver]   [find_list_head] and [find_list_head_offset];
    - [Timers]     [calculate], [generator] and [render_text];
    - [Sample]     concrete images and records.
    The properties come after the definitions. *)

From Stdlib Require Import ZArith Lia List Bool Ascii String.
From Stdlib.Strings Require Import Byte HexString.
From stdpp Require Import base option gmap strings list sorting.

Local Open Scope Z_scope.

(* ===================================================================== *)
(** ** 64-bit helpers *)
(* ===================================================================== *)

Module Bits.

Definition mask64 : Z := 0xFFFFFFFFFFFFFFFF.

Definition is_u64 (x : Z) : Prop := 0 <= x < 2 ^ 64.

(** Little-endian byte split of a non-negative integer, [n] bytes. *)
Fixpoint le_bytes (n : nat) (v : Z) : list Z :=
  match n with
  | O => []
  | S k => Z.land v 0xFF :: le_bytes k (Z.shiftr v 8)
  end.

(** Little-endian value of a byte list. *)
Fixpoint le_value (bs : list Z) : Z :=
  match bs with
  | [] => 0
  | b :: rest => Z.lor b (Z.shiftl (le_value rest) 8)
  end.

(** Modelled from the spec: [patchguard.bswap] is imported from the framework
    and is not part of this file; section 4.4 describes it as the byte-swap
    that reverses all 8 bytes of the 64-bit value. *)
Definition bswap (value : Z) : Z := le_value (rev (le_bytes 8 value)).

(** Modelled from the spec: [patchguard.rol] is imported from the framework;
    section 4.4 describes a 64-bit rotate-left whose amount is taken
    modulo 64. *)
Definition rol (value count : Z) : Z :=
  let r := count mod 64 in
  Z.lor (Z.land (Z.shiftl value r) mask64) (Z.shiftr value (64 - r)).

(** The inverse rotation (rotate-right), used only by the encoders that the
    round-trip property is stated with. *)
Definition ror (value count : Z) : Z :=
  let r := count mod 64 in
  Z.lor (Z.shiftr value r) (Z.land (Z.shiftl value (64 - r)) mask64).

(** Byte [i] (little-endian index) of an integer. *)
Definition byte_at (x : Z) (i : Z) : Z := Z.land (Z.shiftr x (8 * i)) 0xFF.

Definition byte_range (b : Z) : Prop := 0 <= b < 256.

End Bits.

(* ===================================================================== *)
(** ** Framework objects: parent chain and dynamic attributes *)
(* ===================================================================== *)

Module Objects.

#[local] Set Warnings "-register-all".

(** A parsed view over the image.  [obj_id] is the identity of the Python
    object (two views are the same object exactly when their ids agree);
    [obj_truth] is the truth value the framework gives the object when it is
    tested in a condition. *)
Inductive BaseObject : Type := mkObject {
  obj_id : nat;
  obj_name : string;
  obj_offset : Z;
  obj_truth : bool;
  obj_parent : option BaseObject
}.

(** Attributes attached after construction ([newattr]), per object identity.
    The store is shared by every view that holds a reference to the object. *)
Definition getattr (attrs : gmap nat (gmap string Z)) (o : BaseObject)
    (name : string) : option Z :=
  attrs !! obj_id o ≫= (λ fields, fields !! name).

Definition hasattr (attrs : gmap nat (gmap string Z)) (o : BaseObject)
    (name : string) : bool :=
  match getattr attrs o name with Some _ => true | None => false end.

Definition newattr (attrs : gmap nat (gmap string Z)) (o : BaseObject)
    (name : string) (value : Z) : gmap nat (gmap string Z) :=
  <[obj_id o := <[name := value]> (default ∅ (attrs !! obj_id o))]> attrs.

(** What a call can end with: a value, or a Python exception. *)
Inductive outcome (A : Type) : Type :=
  | Returned (a : A)
  | Raised (exc : string).
Arguments Returned {A} a.
Arguments Raised {A} exc.

(** The state one analysis run threads through property accesses: the
    attribute store, and the number of times the debugger-block scan
    ([VolatilityKDBG(...).v()]) has been run so far. *)
Record State : Type := mkState {
  attrs : gmap nat (gmap string Z);
  scans : nat
}.

Definition M (A : Type) : Type := State → outcome A * State.

Definition ret {A} (a : A) : M A := λ σ, (Returned a, σ).

Definition bind {A B} (m : M A) (k : A → M B) : M B :=
  λ σ, match m σ with
       | (Returned a, σ') => k a σ'
       | (Raised e, σ') => (Raised e, σ')
       end.

Definition raise {A} (e : string) : M A := λ σ, (Raised e, σ).

End Objects.

Import Objects.

Notation "'let*' x ':=' m 'in' k" := (bind m (λ x, k))
  (at level 10, x name, m at level 100, k at level 200).

(* ===================================================================== *)
(** ** The collaborators the plugin calls into *)
(* ===================================================================== *)

Module Framework.

(** A loaded module ([_LDR_DATA_TABLE_ENTRY]); [exports] stands for its export
    table, [BaseDllName] is [None] when the name cannot be read. *)
Record LDR_DATA_TABLE_ENTRY : Type := mkModule {
  DllBase : Z;
  SizeOfImage : Z;
  BaseDllName : option string;
  exports : list (string * Z)
}.

(** A timer object read from the image: the view itself and the fields the
    plugin looks at.  [m_Dpc] is the stored value of the member [Dpc]. *)
Record KTIMER : Type := mkTimer {
  timer_obj : BaseObject;
  Header_Type : Z;
  Header_SignalState : Z;
  DueTime_HighPart : Z;
  DueTime_LowPart : Z;
  Period : Z;
  m_Dpc : Z
}.

(** One memory image together with its profile, as the services outside this
    file expose it.  Everything here is read-only during a run. *)
Record Image : Type := mkImage {
  (* profile.metadata *)
  major : Z;
  minor : Z;
  build : Z;
  memory_model : option string;
  (* the address space: a byte where the address is readable *)
  vm : Z → option byte;
  address_mask : Z → Z;
  (* win8_kdbg.VolatilityKDBG(...).v(): the two secrets when the block is found *)
  kdbg_scan : option (Z * Z);
  (* modules.lsmod *)
  modlist : list LDR_DATA_TABLE_ENTRY;
  (* an 'address' object located at an offset: its truth value and its value *)
  address_truth : Z → bool;
  address_value : Z → Z;
  (* sizeof(_LIST_ENTRY) in the profile *)
  sizeof_LIST_ENTRY : Z;
  (* _LIST_ENTRY.list_of_type("_KTIMER", "TimerListEntry") for the head at an address *)
  list_of_type : Z → list KTIMER;
  (* for every KPCR of tasks.get_kdbg(...).kpcrs(), the addresses of the
     [Entry] list heads of ProcessorBlock.TimerTable.TimerEntries *)
  kpcr_timer_entries : list (list Z);
  (* _KDPC.DeferredRoutine of the _KDPC at an offset, when it can be read *)
  kdpc_routine : Z → option Z
}.

Definition getprocaddress (nt_mod : LDR_DATA_TABLE_ENTRY) (func : string) : option Z :=
  snd <$> find (λ e, String.eqb (fst e) func) (exports nt_mod).

(** [zread]: [length] bytes from [addr], zero where the image cannot be read. *)
Definition zread (img : Image) (addr : Z) (length : nat) : list byte :=
  map (λ i, default x00 (vm img (addr + Z.of_nat i))) (seq 0 length).

Definition byte_value (b : byte) : Z := Z.of_N (Byte.to_N b).

(** [struct.unpack("I", ...)]: an unsigned 32-bit integer in the byte order of
    the analysing host, little-endian on the x86 hosts the tool runs on. *)
Definition unpack_I (ptr : list byte) : Z := Bits.le_value (map byte_value ptr).

(** The same four bytes read as a two's-complement (signed) displacement. *)
Definition signed32 (ptr : list byte) : Z :=
  let u := unpack_I ptr in if u <? 2 ^ 31 then u else u - 2 ^ 32.

Fixpoint starts_with (sig data : list byte) : bool :=
  match sig, data with
  | [], _ => true
  | _ :: _, [] => false
  | s :: sig', d :: data' => Byte.eqb s d && starts_with sig' data'
  end.

(** [data.find(sig)] counted from position [i]: the lowest index of an
    occurrence, or -1. *)
Fixpoint find_from (data sig : list byte) (i : Z) : Z :=
  if starts_with sig data then i
  else match data with
       | [] => -1
       | _ :: rest => find_from rest sig (i + 1)
       end.

Definition bytes_find (data sig : list byte) : Z := find_from data sig 0.

(** Python's insertion point to the right of equal elements. *)
Fixpoint bisect_right (xs : list Z) (x : Z) : Z :=
  match xs with
  | [] => 0
  | y :: rest => if y <=? x then 1 + bisect_right rest x else 0
  end.

(** Modelled from the spec: [tasks.find_module] belongs to the framework.
    Section 4.6: find the module whose [base, base+size) range contains the
    address by searching the sorted bases, then checking the range; unknown
    when no module contains it or when the address itself is unresolved. *)
Definition find_module (mods : gmap Z LDR_DATA_TABLE_ENTRY) (mod_addrs : list Z)
    (addr : option Z) : option LDR_DATA_TABLE_ENTRY :=
  match addr with
  | None => None
  | Some a =>
      let pos := bisect_right mod_addrs a - 1 in
      if pos =? -1 then None
      else match mod_addrs !! Z.to_nat pos ≫= (λ base, mods !! base) with
           | Some entry =>
               if (DllBase entry <=? a) && (a <? DllBase entry + SizeOfImage entry)
               then Some entry else None
           | None => None
           end
  end.

End Framework.

Import Framework.

(* ===================================================================== *)
(** ** class _KTIMER: the Dpc property *)
(* ===================================================================== *)

Module Ktimer.

(** What [timer.Dpc] evaluates to. *)
Inductive DpcValue : Type :=
  | Member (pointer : Z)          (* self.m("Dpc") *)
  | NoneObject (reason : string)  (* obj.NoneObject(reason) *)
  | KDPC (offset : Z).            (* obj.Object("_KDPC", offset = decoded) *)

(** One step of the upward loop
    [while parent and parent.obj_name != "_KDDEBUGGER_DATA64"]. *)
Fixpoint climb (parent : BaseObject) : option BaseObject :=
  if negb (obj_truth parent) then None
  else if String.eqb (obj_name parent) "_KDDEBUGGER_DATA64" then Some parent
  else match obj_parent parent with
       | None => None
       | Some above => climb above
       end.

(** The object the loop stops at, [None] when [not parent] holds after it. *)
Definition kdbg_parent (self : KTIMER) : option BaseObject :=
  match obj_parent (timer_obj self) with
  | None => None
  | Some parent => climb parent
  end.

(** The transform applied to the stored field. *)
Definition decode (dpc obj_offset wait_never wait_always : Z) : Z :=
  Z.lxor
    (Bits.bswap
       (Z.lxor (Bits.rol (Z.lxor dpc wait_never) (Z.land wait_never 0xFF))
               obj_offset))
    wait_always.

(** Running the debugger-block scan once. *)
Definition run_scan (img : Image) : M (option (Z * Z)) :=
  λ σ, (Returned (kdbg_scan img), mkState (attrs σ) (S (scans σ))).

Definition set_attr (o : BaseObject) (name : string) (value : Z) : M unit :=
  λ σ, (Returned tt, mkState (newattr (attrs σ) o name value) (scans σ)).

(** Reading an attribute of an object raises when it is absent. *)
Definition get_attr (o : BaseObject) (name : string) : M Z :=
  λ σ, match getattr (attrs σ) o name with
       | Some v => (Returned v, σ)
       | None => (Raised "AttributeError", σ)
       end.

Definition Dpc (img : Image) (self : KTIMER) : M DpcValue :=
  λ σ,
  if bool_decide (memory_model img = Some "32bit") then
    ret (Member (m_Dpc self)) σ
  else
    match kdbg_parent self with
    | None => ret (NoneObject "Parent is not a KDBG structure") σ
    | Some parent =>
        let finish : M DpcValue :=
          let* wait_never := get_attr parent "wait_never" in
          let* wait_always := get_attr parent "wait_always" in
          ret (KDPC (decode (m_Dpc self) (obj_offset (timer_obj self))
                            wait_never wait_always)) in
        if negb (hasattr (attrs σ) parent "wait_always")
           || negb (hasattr (attrs σ) parent "wait_never") then
          (let* kdbg := run_scan img in
           match kdbg with
           | None => ret (NoneObject "Cannot find KDBG structure")
           | Some (never, always) =>
               let* _ := set_attr parent "wait_never" never in
               let* _ := set_attr parent "wait_always" always in
               finish
           end) σ
        else finish σ
    end.

(** The inverse transform as the round-trip property lists its steps: XOR
    always, byteswap, inverse-rotate, XOR offset, XOR never. *)
Definition encode_listed (value obj_offset wait_never wait_always : Z) : Z :=
  Z.lxor
    (Z.lxor (Bits.ror (Bits.bswap (Z.lxor value wait_always))
                      (Z.land wait_never 0xFF))
            obj_offset)
    wait_never.

(** The inverse transform with the steps of [decode] undone in reverse order:
    XOR always, byteswap, XOR offset, inverse-rotate, XOR never. *)
Definition encode (value obj_offset wait_never wait_always : Z) : Z :=
  Z.lxor
    (Bits.ror (Z.lxor (Bits.bswap (Z.lxor value wait_always)) obj_offset)
              (Z.land wait_never 0xFF))
    wait_never.

(** Both secrets are present on the object. *)
Definition has_secrets (attrs : gmap nat (gmap string Z)) (o : BaseObject) : bool :=
  hasattr attrs o "wait_always" && hasattr attrs o "wait_never".

(** Accessing the property on a sequence of records, one after the other. *)
Fixpoint dpc_each (img : Image) (timers : list KTIMER) : M (list DpcValue) :=
  match timers with
  | [] => ret []
  | t :: rest =>
      let* d := Dpc img t in
      let* ds := dpc_each img rest in
      ret (d :: ds)
  end.

End Ktimer.

Import Ktimer.

Arguments Dpc : simpl never.

(* ===================================================================== *)
(** ** class Timers: locating the table *)
(* ===================================================================== *)

Module Resolver.

(** What [KiTimerTableListHead] can be bound to in [calculate]. *)
Inductive TableHead : Type :=
  | HeadNone                 (* a resolver returned None *)
  | HeadConfig (value : Z)   (* self._config.LISTHEAD *)
  | HeadAddress (at_ : Z)    (* obj.Object('address', at_, vm) *)
  | HeadInt (value : Z).     (* a plain integer *)

Definition head_truth (img : Image) (h : TableHead) : bool :=
  match h with
  | HeadNone => false
  | HeadConfig v | HeadInt v => negb (v =? 0)
  | HeadAddress a => address_truth img a
  end.

(** The table offset an [Array] is built at. *)
Definition head_offset (img : Image) (h : TableHead) : Z :=
  match h with
  | HeadNone => 0
  | HeadConfig v | HeadInt v => v
  | HeadAddress a => address_value img a
  end.

(** Direct mode. *)
Definition find_list_head (img : Image) (nt_mod : LDR_DATA_TABLE_ENTRY)
    (func : string) (sig : list byte) : TableHead :=
  match getprocaddress nt_mod func with
  | None => HeadNone
  | Some func_rva =>
      let func_addr := func_rva + DllBase nt_mod in
      let data := zread img func_addr 300 in
      let n := bytes_find data sig in
      if n =? -1 then HeadNone
      else HeadAddress (func_addr + n + Z.of_nat (length sig))
  end.

(** Pointer-relative mode; [None] or the integer the function returns. *)
Definition find_list_head_offset (img : Image) (nt_mod : LDR_DATA_TABLE_ENTRY)
    (func : string) (sig : list byte) : option Z :=
  match getprocaddress nt_mod func with
  | None => None
  | Some func_rva =>
      let func_addr := func_rva + DllBase nt_mod in
      let data := zread img func_addr 300 in
      let n := bytes_find data sig in
      if n =? -1 then None
      else
        let ptr := zread img (func_addr + n + Z.of_nat (length sig)) 4 in
        let ptr := unpack_I ptr in
        Some (ptr + func_addr + n + Z.of_nat (length sig) + 4)
  end.

(** What the claim about pointer-relative mode expects instead: the same
    four bytes taken as a signed displacement. *)
Definition signed_target (img : Image) (func_addr n : Z) (sig : list byte) : Z :=
  signed32 (zread img (func_addr + n + Z.of_nat (length sig)) 4)
  + (func_addr + n + Z.of_nat (length sig) + 4).

Definition of_offset (r : option Z) : TableHead :=
  match r with None => HeadNone | Some v => HeadInt v end.

End Resolver.

Import Resolver.

(* ===================================================================== *)
(** ** class Timers: calculate, generator, render_text *)
(* ===================================================================== *)

Module Timers.

Record Config : Type := mkConfig { LISTHEAD : option Z }.

(** Python's comparisons of the pair [version] with a literal pair. *)
Definition version_eq (v w : Z * Z) : bool := (v.1 =? w.1) && (v.2 =? w.2).

Definition version_ge (v w : Z * Z) : bool :=
  (w.1 <? v.1) || ((v.1 =? w.1) && (w.2 <=? v.2)).

Inductive Branch : Type :=
  | BranchA   (* array of 256 _LIST_ENTRY *)
  | BranchB   (* array of 512 _KTIMER_TABLE_ENTRY *)
  | BranchC.  (* per-processor timer tables under the KPCRs *)

(** The conditions of the [if]/[elif] chain of [calculate], in order.  The
    memory model is not consulted by any of them. *)
Definition select_branch (major minor build : Z) (memory_model : option string)
    : option Branch :=
  let version := (major, minor) in
  if version_eq version (5, 1) || (version_eq version (5, 2) && (build =? 3789))
  then Some BranchA
  else if version_eq version (5, 2) || version_eq version (6, 0)
  then Some BranchB
  else if version_ge version (6, 1)
  then Some BranchC
  else None.

(** Offsets of the [count] elements of an [Array] of elements of [size] bytes. *)
Definition array_offsets (base size : Z) (count : nat) : list Z :=
  map (λ i, base + Z.of_nat i * size) (seq 0 count).

(** [timer_types_32] / [timer_types_64]: the size [TimerVTypes] installs for
    [_KTIMER_TABLE_ENTRY] (the member [Entry] is at offset 0 in both). *)
Definition sizeof_KTIMER_TABLE_ENTRY (img : Image) : Z :=
  if String.eqb (default "32bit" (memory_model img)) "32bit" then 0x10 else 0x18.

Definition Entry_offset : Z := 0x0.

Definition config_head (cfg : Config) : option Z :=
  match LISTHEAD cfg with
  | Some v => if v =? 0 then None else Some v
  | None => None
  end.

Definition sig_A : list byte := [x25; xff; x00; x00; x00; x8d; x0c; xc5].

Definition sigData (img : Image) : list (bool * string * list byte) :=
  if bool_decide (memory_model img = Some "32bit") then
    [ (false, "KeCancelTimer", [xc1; xe7; x04; x81; xc7]);
      (true, "KeUpdateSystemTime",
        [x48; xb9; x00; x00; x00; x00; x80; xf7; xff; xff; x4c; x8d; x1d]) ]
  else
    [ (true, "KeCancelTimer", [x48; x8d; x4c; x6d; x00; x48; x8d; x05]);
      (true, "KeUpdateSystemTime",
        [x48; xb9; x00; x00; x00; x00; x80; xf7; xff; xff; x4c; x8d; x1d]) ].

(** [for sig in sigData: ...; if KiTimerTableListHead: break]; [last] is the
    value bound by the previous iteration. *)
Fixpoint try_sigs (img : Image) (nt_mod : LDR_DATA_TABLE_ENTRY)
    (sigs : list (bool * string * list byte)) (last : TableHead) : TableHead :=
  match sigs with
  | [] => last
  | (relative, func, sig) :: rest =>
      let h := if relative : bool
               then of_offset (find_list_head_offset img nt_mod func sig)
               else find_list_head img nt_mod func sig in
      if head_truth img h then h else try_sigs img nt_mod rest h
  end.

Definition warning : string := "Cannot find KiTimerTableListHead".

(** Branch A: the table head, then 256 lists of timers. *)
Definition branch_A (cfg : Config) (img : Image)
    : outcome (list string * list KTIMER) :=
  let head :=
    match config_head cfg with
    | Some v => Returned (HeadConfig v)
    | None =>
        match modlist img with
        | [] => Raised "IndexError"
        | nt_mod :: _ => Returned (find_list_head img nt_mod "KeUpdateSystemTime" sig_A)
        end
    end in
  match head with
  | Raised e => Raised e
  | Returned KiTimerTableListHead =>
      if negb (head_truth img KiTimerTableListHead) then Returned ([warning], [])
      else
        let lists := array_offsets (head_offset img KiTimerTableListHead)
                                   (sizeof_LIST_ENTRY img) 256 in
        Returned ([], flat_map (list_of_type img) lists)
  end.

(** Branch B: the table head, then 512 entries each wrapping a list. *)
Definition branch_B (cfg : Config) (img : Image)
    : outcome (list string * list KTIMER) :=
  let head :=
    match config_head cfg with
    | Some v => Returned (HeadConfig v)
    | None =>
        match modlist img with
        | [] => Raised "IndexError"
        | nt_mod :: _ => Returned (try_sigs img nt_mod (sigData img) HeadNone)
        end
    end in
  match head with
  | Raised e => Raised e
  | Returned KiTimerTableListHead =>
      if negb (head_truth img KiTimerTableListHead) then Returned ([warning], [])
      else
        let lists := array_offsets (head_offset img KiTimerTableListHead)
                                   (sizeof_KTIMER_TABLE_ENTRY img) 512 in
        Returned ([], flat_map (λ l, list_of_type img (l + Entry_offset)) lists)
  end.

(** Branch C: the timer tables of every processor. *)
Definition branch_C (img : Image) : outcome (list string * list KTIMER) :=
  Returned ([], flat_map (λ entries, flat_map (list_of_type img) entries)
                         (kpcr_timer_entries img)).

(** The list [timers] that the version chain fills, with the warnings it
    emits on the way. *)
Definition collect_timers (cfg : Config) (img : Image)
    : outcome (list string * list KTIMER) :=
  match select_branch (major img) (minor img) (build img) (memory_model img) with
  | Some BranchA => branch_A cfg img
  | Some BranchB => branch_B cfg img
  | Some BranchC => branch_C img
  | None => Returned ([], [])
  end.

Definition TimerNotificationObject : Z := 8.
Definition TimerSynchronizationObject : Z := 9.
Definition valid_types : list Z :=
  [TimerNotificationObject; TimerSynchronizationObject].

(** [x in valid_types]. *)
Definition type_in (x : Z) (types : list Z) : bool := existsb (Z.eqb x) types.

(** The record passes the sanity check on the timer type. *)
Definition keeps (t : KTIMER) : bool := type_in (Header_Type t) valid_types.

(** [timer.Dpc.DeferredRoutine]; attribute access on a [NoneObject] gives a
    [NoneObject] again. *)
Definition DeferredRoutine (img : Image) (dpc : DpcValue) : option Z :=
  match dpc with
  | NoneObject _ => None
  | Member pointer => kdpc_routine img pointer
  | KDPC offset => kdpc_routine img offset
  end.

(** The final loop of [calculate] over the collected timers. *)
Fixpoint calculate_loop (img : Image) (mods : gmap Z LDR_DATA_TABLE_ENTRY)
    (mod_addrs : list Z) (timers : list KTIMER)
    : M (list (KTIMER * option LDR_DATA_TABLE_ENTRY)) :=
  match timers with
  | [] => ret []
  | timer :: rest =>
      if negb (type_in (Header_Type timer) valid_types) then
        calculate_loop img mods mod_addrs rest
      else
        let* dpc := Dpc img timer in
        let module := find_module mods mod_addrs
                        (address_mask img <$> DeferredRoutine img dpc) in
        let* more := calculate_loop img mods mod_addrs rest in
        ret ((timer, module) :: more)
  end.

(** [dict((address_mask(mod.DllBase), mod) for mod in modlist)]: a later
    module replaces an earlier one with the same key. *)
Definition mods_of (img : Image) : gmap Z LDR_DATA_TABLE_ENTRY :=
  foldl (λ m entry, <[address_mask img (DllBase entry) := entry]> m) ∅ (modlist img).

(** [sorted(mods.keys())]. *)
Definition mod_addrs_of (mods : gmap Z LDR_DATA_TABLE_ENTRY) : list Z :=
  merge_sort Z.le (map fst (map_to_list mods)).

(** [calculate]: the warnings emitted and the (timer, module) pairs yielded. *)
Definition calculate (cfg : Config) (img : Image)
    : M (list string * list (KTIMER * option LDR_DATA_TABLE_ENTRY)) :=
  let mods := mods_of img in
  let mod_addrs := mod_addrs_of mods in
  match collect_timers cfg img with
  | Raised e => raise e
  | Returned (warnings, timers) =>
      let* pairs := calculate_loop img mods mod_addrs timers in
      ret (warnings, pairs)
  end.

(** *** Formatting with ["{0:#010x}"] *)

Definition hex_digit (d : Z) : ascii :=
  nth (Z.to_nat d) (list_ascii_of_string "0123456789abcdef") "0"%char.

(** Hexadecimal digits of a non-negative integer, least significant first,
    without leading zeros. *)
Fixpoint hex_le (fuel : nat) (n : Z) : list Z :=
  match fuel with
  | O => []
  | S fuel' => if n <? 16 then [n] else n mod 16 :: hex_le fuel' (n / 16)
  end.

Definition hex_digits (n : Z) : list ascii :=
  map hex_digit (rev (hex_le (S (Z.to_nat (Z.log2 n))) n)).

(** [format(n, "#010x")]: sign, the prefix 0x, then the digits padded with
    zeros up to a total width of 10. *)
Definition format_hash_010x (n : Z) : string :=
  let sign := if n <? 0 then ["-"%char] else [] in
  let digits := hex_digits (Z.abs n) in
  let pad := repeat "0"%char (10 - length sign - 2 - length digits) in
  string_of_list_ascii (sign ++ ["0"%char; "x"%char] ++ pad ++ digits).

(** The texts section 4.7 of the specification describes for a row: the
    signaled flag as text, and a 32-bit half as eight hexadecimal digits. *)
Definition signaled_text (signal_state : Z) : string :=
  if signal_state =? 0 then "-" else "Yes".

Fixpoint nibbles (k : nat) (n : Z) : list Z :=
  match k with
  | O => []
  | S k' => n mod 16 :: nibbles k' (n / 16)
  end.

Definition hex8 (n : Z) : string :=
  string_of_list_ascii (map hex_digit (rev (nibbles 8 n))).

(** One output row: the values handed to the renderer, column by column. *)
Record Row : Type := mkRow {
  row_offset : Z;
  row_due_time : string;
  row_period : Z;
  row_signaled : string;
  row_routine : option Z;
  row_module : string
}.

Fixpoint generator (img : Image)
    (data : list (KTIMER * option LDR_DATA_TABLE_ENTRY)) : M (list Row) :=
  match data with
  | [] => ret []
  | (timer, module) :: rest =>
      let signaled :=
        if negb (Header_SignalState timer =? 0) then "Yes" else "-" in
      let module_name :=
        match module with
        | Some m => default EmptyString (BaseDllName m)
        | None => "UNKNOWN"
        end in
      let due_time :=
        format_hash_010x (DueTime_HighPart timer) +:+ ":" +:+
        format_hash_010x (DueTime_LowPart timer) in
      let* dpc := Dpc img timer in
      let row := mkRow (obj_offset (timer_obj timer)) due_time (Period timer)
                       signaled (DeferredRoutine img dpc) module_name in
      let* rows := generator img rest in
      ret (row :: rows)
  end.

Fixpoint render_text (img : Image)
    (data : list (KTIMER * option LDR_DATA_TABLE_ENTRY)) : M (list Row) :=
  match data with
  | [] => ret []
  | (timer, module) :: rest =>
      let signaled :=
        if negb (Header_SignalState timer =? 0) then "Yes" else "-" in
      let module_name :=
        match module with
        | Some m => default EmptyString (BaseDllName m)
        | None => "UNKNOWN"
        end in
      let due_time :=
        format_hash_010x (DueTime_HighPart timer) +:+ ":" +:+
        format_hash_010x (DueTime_LowPart timer) in
      let* dpc := Dpc img timer in
      let* rows := render_text img rest in
      ret (mkRow (obj_offset (timer_obj timer)) due_time (Period timer)
                 signaled (DeferredRoutine img dpc) module_name :: rows)
  end.

End Timers.

Import Timers.

(* ===================================================================== *)
(** ** Concrete images and records used to exercise the definitions *)
(* ===================================================================== *)

Module Sample.

Definition kdbg_obj : BaseObject :=
  mkObject 1 "_KDDEBUGGER_DATA64" 0xfffff80002a0d0a0 true None.

Definition kpcr_obj : BaseObject :=
  mkObject 2 "_KPCR" 0xfffff80002a0ed00 true (Some kdbg_obj).

(** A timer reached from a processor block of the debugger structure. *)
Definition timer_a : KTIMER :=
  mkTimer (mkObject 3 "_KTIMER" 0xfffffa8001234560 true (Some kpcr_obj))
          8 1 0x1 0x80000000 5000 0x1122334455667788.

Definition timer_b : KTIMER :=
  mkTimer (mkObject 4 "_KTIMER" 0xfffffa8001777000 true (Some kpcr_obj))
          9 0 0x0 0x10 0 0x0123456789abcdef.

(** A timer built from a bare array, with no owning structure. *)
Definition timer_orphan : KTIMER :=
  mkTimer (mkObject 5 "_KTIMER" 0xfffffa8001999000 true None)
          9 1 0x1 0x80000000 5000 0x1122334455667788.

(** A record whose header type is not a timer type. *)
Definition timer_bad : KTIMER :=
  mkTimer (mkObject 6 "_KTIMER" 0xfffffa8001aaa000 true (Some kpcr_obj))
          7 0 0x0 0x0 0 0x0.

Definition wait_never : Z := 0x9a3c5e7f1b2d4c41.
Definition wait_always : Z := 0x00ff00ff12345678.

Definition module_nt : LDR_DATA_TABLE_ENTRY :=
  mkModule 0x1000 0x500 (Some "ntoskrnl.exe") [("KeCancelTimer", 0x100)].

Definition module_named_unknown : LDR_DATA_TABLE_ENTRY :=
  mkModule 0x2000 0x800 (Some "UNKNOWN") [].

Definition image (major minor build : Z) (memory_model : string)
    (scan : option (Z * Z)) (timers : list KTIMER) : Image :=
  mkImage major minor build (Some memory_model)
          (λ _, None) (λ a, a) scan [module_nt; module_named_unknown]
          (λ _, true) (λ a, a) 16
          (λ head, if head =? 0x5000 then timers else [])
          [[0x5000]] (λ _, None).

Definition win8_x64 : Image :=
  image 6 2 9200 "64bit" (Some (wait_never, wait_always)) [timer_a; timer_b].

Definition win8_x64_no_kdbg : Image :=
  image 6 2 9200 "64bit" None [timer_a; timer_bad; timer_b].

Definition win7_x86 : Image :=
  image 6 1 7601 "32bit" None [timer_a; timer_b].

Definition win2000 : Image :=
  image 5 0 2195 "32bit" None [timer_a].

Definition no_config : Config := mkConfig None.

Definition fresh : State := mkState ∅ 0.

(** [KeCancelTimer] at 0x1100: two bytes of prologue, the 64-bit signature
    of [sigData], then the displacement bytes f0 ff ff ff (-16). *)
Definition code_negative_displacement : list byte :=
  [x90; x90; x48; x8d; x4c; x6d; x00; x48; x8d; x05; xf0; xff; xff; xff].

Definition sig_KeCancelTimer_64 : list byte :=
  [x48; x8d; x4c; x6d; x00; x48; x8d; x05].

Definition image_negative_displacement : Image :=
  mkImage 6 0 6002 (Some "64bit")
          (λ a, if a <? 0x1100 then None
                else nth_error code_negative_displacement (Z.to_nat (a - 0x1100)))
          (λ a, a) None [module_nt] (λ _, true) (λ a, a) 16 (λ _, []) []
          (λ _, None).

End Sample.

(* ===================================================================== *)
(** ** Vocabulary for the further properties *)
(* ===================================================================== *)

Module Chain.

(** The owning structures of an object, nearest first. *)
Fixpoint ancestors (o : BaseObject) : list BaseObject :=
  match obj_parent o with
  | None => []
  | Some p => p :: ancestors p
  end.

(** The loop of [Dpc] walks past such an object. *)
Definition passed_over (q : BaseObject) : Prop :=
  obj_truth q = true ∧ obj_name q ≠ "_KDDEBUGGER_DATA64".

(** [σ'] can be reached from [σ] by accesses to the property on the image
    [img]: every object either carries the same secrets in both states, or
    had no complete pair in [σ] and carries the scanned pair in [σ']. *)
Definition reached (img : Image) (σ σ' : State) : Prop :=
  ∀ o : BaseObject,
    (getattr (attrs σ') o "wait_never" = getattr (attrs σ) o "wait_never"
     ∧ getattr (attrs σ') o "wait_always" = getattr (attrs σ) o "wait_always")
    ∨ (has_secrets (attrs σ) o = false
       ∧ ∃ never always,
           kdbg_scan img = Some (never, always)
           ∧ getattr (attrs σ') o "wait_never" = Some never
           ∧ getattr (attrs σ') o "wait_always" = Some always).

End Chain.

Import Chain.

Module Candidates.

(** What one entry of a signature list resolves to: pointer-relative mode
    when its flag is set, direct mode otherwise (the body of the loop over
    [sigData]). *)
Definition resolve (img : Image) (nt_mod : LDR_DATA_TABLE_ENTRY)
    (c : bool * string * list byte) : TableHead :=
  let '(relative, func, sig) := c in
  if relative : bool
  then of_offset (find_list_head_offset img nt_mod func sig)
  else find_list_head img nt_mod func sig.

End Candidates.

Import Candidates.

Module Pipeline.

(** The value an access to the property returns in a state. *)
Definition dpc_value (img : Image) (t : KTIMER) (σ : State) : DpcValue :=
  match (Dpc img t σ).1 with
  | Returned d => d
  | Raised _ => NoneObject EmptyString
  end.

(** The version chain of [calculate] has to resolve the table itself: a
    table branch is taken and no usable [ListHead] was configured. *)
Definition resolves_table (cfg : Config) (img : Image) : Prop :=
  config_head cfg = None
  ∧ (select_branch (major img) (minor img) (build img) (memory_model img)
     = Some BranchA
     ∨ select_branch (major img) (minor img) (build img) (memory_model img)
       = Some BranchB).

(** Two images present the same profile and the same lists of timers; they
    may differ in their bytes, modules and exports. *)
Definition same_tables (img img' : Image) : Prop :=
  major img = major img' ∧ minor img = minor img' ∧ build img = build img'
  ∧ memory_model img = memory_model img'
  ∧ sizeof_LIST_ENTRY img = sizeof_LIST_ENTRY img'
  ∧ list_of_type img = list_of_type img'.

End Pipeline.

Import Pipeline.

Module Cases.

Definition xp_lists (head : Z) : list KTIMER :=
  if head =? 0x5000 then [Sample.timer_a; Sample.timer_bad] else [].

(** Windows XP, 32-bit: the NT module does not export KeUpdateSystemTime. *)
Definition winxp_no_export : Image :=
  mkImage 5 1 2600 (Some "32bit") (λ _, None) (λ a, a) None [Sample.module_nt]
          (λ _, true) (λ a, a) 8 xp_lists [] (λ _, None).

(** The same profile with no module at all. *)
Definition winxp_no_modules : Image :=
  mkImage 5 1 2600 (Some "32bit") (λ _, None) (λ a, a) None []
          (λ _, true) (λ a, a) 8 xp_lists [] (λ _, None).

Definition with_head (v : Z) : Config := mkConfig (Some v).

End Cases.

(* ===================================================================== *)
(** ** class TimerVTypes: the profile modification *)
(* ===================================================================== *)

Module Profile.

(** [profile.metadata]: the keys the plugin reads; [None] when the key is
    absent. *)
Record Metadata : Type := mkMetadata {
  meta_os : option string;
  meta_major : option Z;
  meta_minor : option Z;
  meta_memory_model : option string
}.

(** A vtype [[size, {member: [offset, [type]]}]]. *)
Record VType : Type := mkVType {
  vsize : Z;
  vmembers : gmap string (Z * list string)
}.

(** The parts of a profile the modification touches.  An object class is
    named by the Python class installed for the type. *)
Record Profile : Type := mkProfile {
  metadata : Metadata;
  vtypes : gmap string VType;
  object_classes : gmap string string
}.

Definition timer_types_64 : gmap string VType :=
  {[ "_KTIMER_TABLE_ENTRY" :=
       mkVType 0x18 (<["Entry" := (0x0, ["_LIST_ENTRY"])]>
                     (<["Time" := (0x10, ["_ULARGE_INTEGER"])]> ∅)) ]}.

Definition timer_types_32 : gmap string VType :=
  {[ "_KTIMER_TABLE_ENTRY" :=
       mkVType 0x10 (<["Entry" := (0x0, ["_LIST_ENTRY"])]>
                     (<["Time" := (0x8, ["_ULARGE_INTEGER"])]> ∅)) ]}.

(** Python's [<] on pairs. *)
Definition version_lt (v w : Z * Z) : bool :=
  (v.1 <? w.1) || ((v.1 =? w.1) && (v.2 <? w.2)).

(** [conditions = {'os': lambda x: x == 'windows'}]. *)
Definition conditions (md : Metadata) : bool :=
  bool_decide (meta_os md = Some "windows").

(** The class this file defines for [_KTIMER]. *)
Definition KTIMER_class : string := "timers._KTIMER".

(** [dict.update]: the keys of [new] replace those of the dictionary. *)
Definition update {V} (d new : gmap string V) : gmap string V := new ∪ d.

Definition modification (profile : Profile) : Profile :=
  let version := (default 0 (meta_major (metadata profile)),
                  default 0 (meta_minor (metadata profile))) in
  let vtypes' :=
    if version_lt version (6, 1) then
      if String.eqb (default "32bit" (meta_memory_model (metadata profile))) "32bit"
      then update (vtypes profile) timer_types_32
      else update (vtypes profile) timer_types_64
    else vtypes profile in
  mkProfile (metadata profile) vtypes'
            (update (object_classes profile) {[ "_KTIMER" := KTIMER_class ]}).

(** The metadata of the profile an image was loaded with. *)
Definition metadata_of (img : Image) : Metadata :=
  mkMetadata (Some "windows") (Some (major img)) (Some (minor img))
             (memory_model img).

End Profile.

Import Profile.

Module Hex.

(** The value of a hexadecimal digit character. *)
Definition digit_value (c : ascii) : Z :=
  let n := Z.of_N (N_of_ascii c) in
  if (48 <=? n) && (n <=? 57) then n - 48
  else if (97 <=? n) && (n <=? 102) then n - 87
  else 0.

(** Reading a run of hexadecimal digits, most significant first. *)
Definition parse_hex (s : list ascii) : Z :=
  fold_left (λ acc c, acc * 16 + digit_value c) s 0.

End Hex.

Import Hex.

(* ===================================================================== *)
(** * Properties *)
(* ===================================================================== *)

Section BitsFacts.
Import Bits.

Lemma u64_testbit_high x i : is_u64 x → 64 <= i → Z.testbit x i = false.
Proof.
  intros [H0 H1] Hi. destruct (Z.eq_dec x 0) as [->|Hx]; [apply Z.bits_0|].
  apply Z.bits_above_log2; [lia|].
  assert (Z.log2 x < 64) by (apply Z.log2_lt_pow2; lia). lia.
Qed.

Lemma u64_of_bits x : 0 <= x → (∀ i, 64 <= i → Z.testbit x i = false) → is_u64 x.
Proof.
  intros H0 H. split; [done|].
  destruct (Z.eq_dec x 0) as [->|Hx]; [done|].
  apply Z.log2_lt_pow2; [lia|].
  destruct (Z_lt_le_dec (Z.log2 x) 64) as [|Hge]; [done|].
  specialize (H (Z.log2 x) Hge). rewrite Z.bit_log2 in H by lia. done.
Qed.

Lemma mask64_ones : mask64 = Z.ones 64.
Proof. reflexivity. Qed.

Lemma testbit_mask64 i : 0 <= i → Z.testbit mask64 i = (i <? 64).
Proof.
  intros Hi. rewrite mask64_ones, Z.testbit_ones by lia.
  destruct (Z.ltb_spec i 64), (Z.leb_spec 0 i); simpl; lia || done.
Qed.

Lemma rol_testbit x c i :
  is_u64 x → 0 <= i < 64 →
  Z.testbit (rol x c) i = Z.testbit x ((i - c mod 64) mod 64).
Proof.
  intros Hx Hi. unfold rol.
  assert (Hr : 0 <= c mod 64 < 64) by (apply Z.mod_pos_bound; lia).
  set (r := c mod 64) in *.
  rewrite Z.lor_spec, Z.land_spec, testbit_mask64 by lia.
  rewrite Z.shiftl_spec, Z.shiftr_spec by lia.
  destruct (Z.ltb_spec i 64); [|lia]. rewrite andb_true_r.
  destruct (Z_lt_le_dec i r).
  - rewrite (Z.testbit_neg_r x (i - r)) by lia. simpl.
    f_equal. apply Z.mod_unique with (-1); lia.
  - rewrite (u64_testbit_high x (i + (64 - r))) by (done || lia).
    rewrite orb_false_r. f_equal. symmetry. apply Z.mod_small. lia.
Qed.

Lemma rol_testbit_high x c i : is_u64 x → 64 <= i → Z.testbit (rol x c) i = false.
Proof.
  intros Hx Hi. unfold rol.
  assert (Hr : 0 <= c mod 64 < 64) by (apply Z.mod_pos_bound; lia).
  rewrite Z.lor_spec, Z.land_spec, testbit_mask64 by lia.
  destruct (Z.ltb_spec i 64); [lia|]. rewrite andb_false_r. simpl.
  rewrite Z.shiftr_spec by lia. apply u64_testbit_high; [done|lia].
Qed.

Lemma rol_nonneg x c : 0 <= x → 0 <= rol x c.
Proof.
  intros Hx. unfold rol.
  assert (Hr : 0 <= c mod 64 < 64) by (apply Z.mod_pos_bound; lia).
  apply Z.lor_nonneg. split.
  - apply Z.land_nonneg. right. done.
  - apply Z.shiftr_nonneg. done.
Qed.

Lemma rol_u64 x c : is_u64 x → is_u64 (rol x c).
Proof.
  intros Hx. apply u64_of_bits.
  - apply rol_nonneg, Hx.
  - intros. by apply rol_testbit_high.
Qed.

Lemma ror_testbit x c i :
  is_u64 x → 0 <= i < 64 →
  Z.testbit (ror x c) i = Z.testbit x ((i + c mod 64) mod 64).
Proof.
  intros Hx Hi. unfold ror.
  assert (Hr : 0 <= c mod 64 < 64) by (apply Z.mod_pos_bound; lia).
  set (r := c mod 64) in *.
  rewrite Z.lor_spec, Z.land_spec, testbit_mask64 by lia.
  rewrite Z.shiftl_spec, Z.shiftr_spec by lia.
  destruct (Z.ltb_spec i 64); [|lia]. rewrite andb_true_r.
  destruct (Z_lt_le_dec (i + r) 64).
  - rewrite (Z.testbit_neg_r x (i - (64 - r))) by lia. rewrite orb_false_r.
    f_equal. symmetry. apply Z.mod_small. lia.
  - rewrite (u64_testbit_high x (i + r)) by (done || lia). simpl.
    f_equal. apply Z.mod_unique with 1; lia.
Qed.

Lemma ror_testbit_high x c i : is_u64 x → 64 <= i → Z.testbit (ror x c) i = false.
Proof.
  intros Hx Hi. unfold ror.
  assert (Hr : 0 <= c mod 64 < 64) by (apply Z.mod_pos_bound; lia).
  rewrite Z.lor_spec, Z.land_spec, testbit_mask64 by lia.
  destruct (Z.ltb_spec i 64); [lia|]. rewrite andb_false_r, orb_false_r.
  rewrite Z.shiftr_spec by lia. apply u64_testbit_high; [done|lia].
Qed.

Lemma ror_rol x c : is_u64 x → ror (rol x c) c = x.
Proof.
  intros Hx. apply Z.bits_inj'. intros i Hi.
  destruct (Z_lt_le_dec i 64).
  - rewrite ror_testbit by (apply rol_u64; done) || lia.
    assert (Hr : 0 <= c mod 64 < 64) by (apply Z.mod_pos_bound; lia).
    rewrite rol_testbit by (done || (apply Z.mod_pos_bound; lia)).
    f_equal. rewrite Zminus_mod_idemp_l.
    replace (i + c mod 64 - c mod 64) with i by lia. apply Z.mod_small. lia.
  - rewrite ror_testbit_high by (apply rol_u64; done) || lia.
    symmetry. by apply u64_testbit_high.
Qed.

Lemma lxor_u64 x y : is_u64 x → is_u64 y → is_u64 (Z.lxor x y).
Proof.
  intros Hx Hy. apply u64_of_bits.
  - apply Z.lxor_nonneg. destruct Hx, Hy. lia.
  - intros i Hi. rewrite Z.lxor_spec, !u64_testbit_high by done. done.
Qed.

Lemma lxor_cancel_r x y : Z.lxor (Z.lxor x y) y = x.
Proof. by rewrite Z.lxor_assoc, Z.lxor_nilpotent, Z.lxor_0_r. Qed.

End BitsFacts.

Section BytesFacts.
Import Bits.

Lemma testbit_high k x i : 0 <= k → 0 <= x < 2 ^ k → k <= i → Z.testbit x i = false.
Proof.
  intros Hk [H0 H1] Hi. destruct (Z.eq_dec x 0) as [->|Hx]; [apply Z.bits_0|].
  apply Z.bits_above_log2; [lia|].
  assert (Z.log2 x < k) by (apply Z.log2_lt_pow2; lia). lia.
Qed.

Lemma testbit_byte_at x i j :
  0 <= i → 0 <= j → Z.testbit (byte_at x i) j = Z.testbit x (j + 8 * i) && (j <? 8).
Proof.
  intros Hi Hj. unfold byte_at.
  change 255 with (Z.ones 8).
  rewrite Z.land_spec, Z.shiftr_spec, Z.testbit_ones by lia.
  f_equal. destruct (Z.leb_spec 0 j); [done|lia].
Qed.

Lemma byte_at_range x i : 0 <= byte_at x i < 256.
Proof.
  unfold byte_at. change 255 with (Z.ones 8). rewrite Z.land_ones by lia.
  apply Z.mod_pos_bound. lia.
Qed.

Lemma length_le_bytes n v : length (le_bytes n v) = n.
Proof. revert v. induction n as [|n IH]; intros v; simpl; [done|]. by rewrite IH. Qed.

Lemma byte_at_succ v i : 0 <= i → byte_at (Z.shiftr v 8) i = byte_at v (Z.succ i).
Proof.
  intros Hi. unfold byte_at. rewrite Z.shiftr_shiftr by lia.
  do 2 f_equal. lia.
Qed.

Lemma nth_le_bytes n v i :
  (i < n)%nat → nth i (le_bytes n v) 0 = byte_at v (Z.of_nat i).
Proof.
  revert v i. induction n as [|n IH]; intros v i Hi; [lia|].
  destruct i as [|i]; simpl.
  - unfold byte_at. by rewrite Z.shiftr_0_r.
  - rewrite IH by lia. rewrite byte_at_succ by lia. f_equal. lia.
Qed.

Lemma le_bytes_range n v : Forall byte_range (le_bytes n v).
Proof.
  revert v. induction n as [|n IH]; intros v; simpl; constructor; [|apply IH].
  pose proof (byte_at_range v 0) as H. unfold byte_at in H.
  by rewrite Z.shiftr_0_r in H.
Qed.

Lemma le_value_nonneg bs : Forall byte_range bs → 0 <= le_value bs.
Proof.
  induction 1 as [|b bs Hb _ IH]; simpl; [done|].
  apply Z.lor_nonneg. split; [apply Hb|]. by apply Z.shiftl_nonneg.
Qed.

Lemma byte_at_le_value bs i :
  Forall byte_range bs → byte_at (le_value bs) (Z.of_nat i) = nth i bs 0.
Proof.
  intros Hbs. revert i. induction Hbs as [|b bs Hb Hbs IH]; intros i.
  - simpl. unfold byte_at. rewrite Z.shiftr_0_l, Z.land_0_l. by destruct i.
  - apply Z.bits_inj'. intros j Hj.
    rewrite testbit_byte_at by lia. simpl le_value.
    rewrite Z.lor_spec, Z.shiftl_spec by lia.
    destruct i as [|i]; simpl nth.
    + destruct (Z.ltb_spec j 8).
      * rewrite (Z.testbit_neg_r _ (j + 8 * Z.of_nat 0 - 8)) by lia.
        rewrite orb_false_r, andb_true_r. f_equal. lia.
      * rewrite andb_false_r. symmetry. apply (testbit_high 8); [lia|apply Hb|lia].
    + rewrite <- IH, testbit_byte_at by lia.
      rewrite (testbit_high 8 b) by (lia || apply Hb).
      simpl. do 2 f_equal. lia.
Qed.

Lemma le_value_high bs i :
  Forall byte_range bs → 8 * Z.of_nat (length bs) <= i → Z.testbit (le_value bs) i = false.
Proof.
  intros Hbs. revert i. induction Hbs as [|b bs Hb Hbs IH]; intros i Hi; simpl in *.
  - apply Z.bits_0.
  - rewrite Z.lor_spec, Z.shiftl_spec by lia.
    rewrite (testbit_high 8 b) by (lia || apply Hb). simpl. apply IH. lia.
Qed.

Lemma bswap_u64 x : is_u64 (bswap x).
Proof.
  assert (Hr : Forall byte_range (rev (le_bytes 8 x))).
  { apply Forall_rev, le_bytes_range. }
  apply u64_of_bits; unfold bswap.
  - by apply le_value_nonneg.
  - intros i Hi. apply le_value_high; [done|].
    rewrite length_rev, length_le_bytes. lia.
Qed.

Lemma bswap_byte_at x i : 0 <= i < 8 → byte_at (bswap x) i = byte_at x (7 - i).
Proof.
  intros Hi. unfold bswap.
  rewrite <- (Z2Nat.id i) at 1 by lia.
  rewrite byte_at_le_value by apply Forall_rev, le_bytes_range.
  rewrite rev_nth by (rewrite length_le_bytes; lia).
  rewrite length_le_bytes, nth_le_bytes by lia. f_equal. lia.
Qed.

Lemma u64_byte_ext x y :
  is_u64 x → is_u64 y → (∀ i, 0 <= i < 8 → byte_at x i = byte_at y i) → x = y.
Proof.
  intros Hx Hy H. apply Z.bits_inj'. intros j Hj.
  destruct (Z_lt_le_dec j 64).
  - assert (Hq : 0 <= j / 8 < 8) by (split; [apply Z.div_pos|apply Z.div_lt_upper_bound]; lia).
    assert (Hm : 0 <= j mod 8 < 8) by (apply Z.mod_pos_bound; lia).
    pose proof (f_equal (λ b, Z.testbit b (j mod 8)) (H (j / 8) Hq)) as E. simpl in E.
    rewrite !testbit_byte_at in E by lia.
    destruct (Z.ltb_spec (j mod 8) 8); [|lia]. rewrite !andb_true_r in E.
    replace (j mod 8 + 8 * (j / 8)) with j in E; [done|].
    rewrite (Z.div_mod j 8) at 1 by lia. lia.
  - by rewrite !u64_testbit_high.
Qed.

Lemma bswap_involutive x : is_u64 x → bswap (bswap x) = x.
Proof.
  intros Hx. apply u64_byte_ext; [apply bswap_u64|done|].
  intros i Hi. rewrite !bswap_byte_at by lia. f_equal. lia.
Qed.

End BytesFacts.

(** ** The attribute store *)

Lemma getattr_newattr_same attrs o name v :
  getattr (newattr attrs o name v) o name = Some v.
Proof.
  unfold getattr, newattr. rewrite lookup_insert_eq. simpl.
  by rewrite lookup_insert_eq.
Qed.

Lemma getattr_newattr_other attrs o name name' v :
  name ≠ name' → getattr (newattr attrs o name v) o name' = getattr attrs o name'.
Proof.
  intros Hne. unfold getattr, newattr. rewrite lookup_insert_eq. simpl.
  rewrite lookup_insert_ne by done.
  destruct (attrs !! obj_id o); simpl; [done|]. by rewrite lookup_empty.
Qed.

Lemma has_secrets_true attrs o :
  has_secrets attrs o = true ↔
  ∃ never always, getattr attrs o "wait_never" = Some never
                  ∧ getattr attrs o "wait_always" = Some always.
Proof.
  unfold has_secrets, hasattr. split.
  - destruct (getattr attrs o "wait_always") as [a|]; [|done].
    destruct (getattr attrs o "wait_never") as [n|]; [|done]. eauto.
  - intros (n & a & -> & ->). done.
Qed.

Lemma has_secrets_test attrs o :
  negb (hasattr attrs o "wait_always") || negb (hasattr attrs o "wait_never")
  = negb (has_secrets attrs o).
Proof. unfold has_secrets. by rewrite negb_andb. Qed.

(** ** The Dpc property, case by case *)

Section DpcCases.
Context (img : Image) (self : KTIMER) (σ : State).

Lemma Dpc_32bit :
  memory_model img = Some "32bit" → Dpc img self σ = (Returned (Member (m_Dpc self)), σ).
Proof. intros H. unfold Dpc. by rewrite bool_decide_true. Qed.

Lemma Dpc_no_parent :
  memory_model img ≠ Some "32bit" → kdbg_parent self = None →
  Dpc img self σ = (Returned (NoneObject "Parent is not a KDBG structure"), σ).
Proof. intros H Hp. unfold Dpc. rewrite bool_decide_false by done. by rewrite Hp. Qed.

Lemma Dpc_cached parent never always :
  memory_model img ≠ Some "32bit" → kdbg_parent self = Some parent →
  getattr (attrs σ) parent "wait_never" = Some never →
  getattr (attrs σ) parent "wait_always" = Some always →
  Dpc img self σ =
    (Returned (KDPC (decode (m_Dpc self) (obj_offset (timer_obj self)) never always)), σ).
Proof.
  intros H Hp Hn Ha. unfold Dpc. rewrite bool_decide_false by done. rewrite Hp.
  unfold hasattr. rewrite Hn, Ha. simpl.
  unfold bind, get_attr. by rewrite Hn, Ha.
Qed.

Lemma Dpc_scan_found parent never always :
  memory_model img ≠ Some "32bit" → kdbg_parent self = Some parent →
  has_secrets (attrs σ) parent = false →
  kdbg_scan img = Some (never, always) →
  Dpc img self σ =
    (Returned (KDPC (decode (m_Dpc self) (obj_offset (timer_obj self)) never always)),
     mkState (newattr (newattr (attrs σ) parent "wait_never" never)
                      parent "wait_always" always)
             (S (scans σ))).
Proof.
  intros H Hp Hs Hk. unfold Dpc. rewrite bool_decide_false by done. rewrite Hp.
  rewrite has_secrets_test, Hs. simpl.
  unfold bind, run_scan, set_attr, get_attr. rewrite Hk. simpl.
  rewrite getattr_newattr_other, getattr_newattr_same by done.
  simpl. by rewrite getattr_newattr_same.
Qed.

Lemma Dpc_scan_missing parent :
  memory_model img ≠ Some "32bit" → kdbg_parent self = Some parent →
  has_secrets (attrs σ) parent = false →
  kdbg_scan img = None →
  Dpc img self σ =
    (Returned (NoneObject "Cannot find KDBG structure"),
     mkState (attrs σ) (S (scans σ))).
Proof.
  intros H Hp Hs Hk. unfold Dpc. rewrite bool_decide_false by done. rewrite Hp.
  rewrite has_secrets_test, Hs. simpl.
  unfold bind, run_scan. by rewrite Hk.
Qed.

(** The property access never raises: the two attribute reads that follow
    the test always find the attributes. *)
Lemma Dpc_returns : ∃ d σ', Dpc img self σ = (Returned d, σ').
Proof.
  destruct (decide (memory_model img = Some "32bit")) as [H|H].
  { rewrite Dpc_32bit by done. eauto. }
  destruct (kdbg_parent self) as [parent|] eqn:Hp.
  2: { rewrite Dpc_no_parent by done. eauto. }
  destruct (has_secrets (attrs σ) parent) eqn:Hs.
  - apply has_secrets_true in Hs as (n & a & Hn & Ha).
    erewrite Dpc_cached by done. eauto.
  - destruct (kdbg_scan img) as [[n a]|] eqn:Hk.
    + erewrite Dpc_scan_found by done. eauto.
    + erewrite Dpc_scan_missing by done. eauto.
Qed.

End DpcCases.

(* ===================================================================== *)
(** ** The decoder *)
(* ===================================================================== *)

(** C1. On a 64-bit target with the debugger structure reachable, the
    property returns the [_KDPC] at
    [bswap(rol(v ^ never, never & 0xFF) ^ o) ^ always], both when the secrets
    are already on the structure and when they are obtained by the scan;
    [bswap] moves byte [7 - i] to byte [i]; the rotation amount is the low
    eight bits of [never], and the rotation moves bit [(i - r) mod 64] to bit
    [i] where [r] is that amount modulo 64. *)
Theorem C1_decoder_formula :
  ∀ (img : Image) (self : KTIMER) (σ : State) (parent : BaseObject)
    (never always : Z),
    memory_model img ≠ Some "32bit" →
    kdbg_parent self = Some parent →
    Bits.is_u64 (m_Dpc self) → Bits.is_u64 never →
    let v := m_Dpc self in
    let o := obj_offset (timer_obj self) in
    let rotated := Bits.rol (Z.lxor v never) (Z.land never 0xFF) in
    let decoded := Z.lxor (Bits.bswap (Z.lxor rotated o)) always in
    (getattr (attrs σ) parent "wait_never" = Some never →
     getattr (attrs σ) parent "wait_always" = Some always →
     Dpc img self σ = (Returned (KDPC decoded), σ))
    ∧ (has_secrets (attrs σ) parent = false →
       kdbg_scan img = Some (never, always) →
       (Dpc img self σ).1 = Returned (KDPC decoded))
    ∧ (∀ x i, 0 <= i < 8 →
         Bits.byte_at (Bits.bswap x) i = Bits.byte_at x (7 - i))
    ∧ Z.land never 0xFF = never mod 256
    ∧ (∀ x, Bits.rol x (Z.land never 0xFF)
            = Bits.rol x ((Z.land never 0xFF) mod 64))
    ∧ (∀ i, 0 <= i < 64 →
         Z.testbit rotated i
         = Z.testbit (Z.lxor v never) ((i - (Z.land never 0xFF) mod 64) mod 64)).
Proof.
  intros img self σ parent never always H32 Hp Hv Hn v o rotated decoded.
  split_and!.
  - intros Hcn Hca. by rewrite (Dpc_cached img self σ parent never always).
  - intros Hs Hk. by rewrite (Dpc_scan_found img self σ parent never always).
  - intros x i Hi. by apply bswap_byte_at.
  - change 255 with (Z.ones 8). by rewrite Z.land_ones.
  - intros x. unfold Bits.rol. by rewrite Z.mod_mod.
  - intros i Hi. apply rol_testbit; [|done]. by apply lxor_u64.
Qed.

Lemma C1_decoder_formula_witness :
  (Dpc Sample.win8_x64 Sample.timer_a Sample.fresh).1
  = Returned (KDPC 0xf3cdb562e4149591).
Proof.
  refine (proj1 (proj2
    (C1_decoder_formula Sample.win8_x64 Sample.timer_a Sample.fresh
       Sample.kdbg_obj Sample.wait_never Sample.wait_always _ _ _ _)) _ _);
    try reflexivity; try (by vm_compute); try (split; by vm_compute).
Defined.

Lemma decode_xor_always v o n a :
  Z.lxor (decode v o n a) a
  = Bits.bswap (Z.lxor (Bits.rol (Z.lxor v n) (Z.land n 0xFF)) o).
Proof. unfold decode. apply lxor_cancel_r. Qed.

(** C4, as amended. Undoing the steps of the decoder in reverse order (XOR
    always, byteswap, XOR offset, inverse-rotate by [never & 0xFF], XOR
    never) gives back the stored value, for all 64-bit inputs. *)
Theorem C4_round_trip :
  ∀ value offset never always : Z,
    Bits.is_u64 value → Bits.is_u64 offset →
    Bits.is_u64 never → Bits.is_u64 always →
    encode (decode value offset never always) offset never always = value.
Proof.
  intros v o n a Hv Ho Hn Ha. unfold encode.
  rewrite decode_xor_always.
  assert (Hx : Bits.is_u64 (Z.lxor v n)) by by apply lxor_u64.
  rewrite bswap_involutive by (apply lxor_u64; [by apply rol_u64|done]).
  rewrite lxor_cancel_r, ror_rol by done.
  apply lxor_cancel_r.
Qed.

Lemma C4_round_trip_witness :
  encode (decode 0x1122334455667788 0xfffffa8001234560
                 Sample.wait_never Sample.wait_always)
         0xfffffa8001234560 Sample.wait_never Sample.wait_always
  = 0x1122334455667788.
Proof.
  apply (C4_round_trip 0x1122334455667788 0xfffffa8001234560
           Sample.wait_never Sample.wait_always);
    unfold Bits.is_u64; vm_compute; split; congruence.
Defined.

(** With the steps in the order the property lists them (inverse-rotate
    before XOR offset) the round trip fails: value 0, offset 1, never 1,
    always 0 comes back as 0x8000000000000001. *)
Lemma C4_listed_order_fails :
  Bits.is_u64 0 ∧ Bits.is_u64 1
  ∧ encode_listed (decode 0 1 1 0) 1 1 0 = 0x8000000000000001
  ∧ encode_listed (decode 0 1 1 0) 1 1 0 ≠ 0.
Proof. unfold Bits.is_u64. vm_compute. repeat split; congruence. Qed.

(* ===================================================================== *)
(** ** The 32-bit case *)
(* ===================================================================== *)

Lemma dpc_each_32bit img timers σ :
  memory_model img = Some "32bit" →
  dpc_each img timers σ = (Returned (map (λ t, Member (m_Dpc t)) timers), σ).
Proof.
  intros H. induction timers as [|t rest IH]; simpl; [done|].
  unfold bind. rewrite Dpc_32bit by done. by rewrite IH.
Qed.

(** C7. On a 32-bit target every access to the property returns the stored
    member: the state is left as it was (no scan is run, nothing is attached
    to any object), whatever the parent chain is, and this holds for any
    sequence of records. *)
Theorem C7_32bit_reads_member_directly :
  ∀ (img : Image) (self : KTIMER) (timers : list KTIMER) (σ : State),
    memory_model img = Some "32bit" →
    Dpc img self σ = (Returned (Member (m_Dpc self)), σ)
    ∧ dpc_each img timers σ = (Returned (map (λ t, Member (m_Dpc t)) timers), σ).
Proof.
  intros img self timers σ H. split.
  - by apply Dpc_32bit.
  - by apply dpc_each_32bit.
Qed.

Lemma C7_32bit_reads_member_directly_witness :
  Dpc Sample.win7_x86 Sample.timer_orphan Sample.fresh
  = (Returned (Member 0x1122334455667788), Sample.fresh).
Proof.
  apply (C7_32bit_reads_member_directly Sample.win7_x86 Sample.timer_orphan
           [Sample.timer_a] Sample.fresh).
  reflexivity.
Defined.

(* ===================================================================== *)
(** ** Caching of the secrets *)
(* ===================================================================== *)

Lemma dpc_each_cached img timers parent σ never always :
  memory_model img ≠ Some "32bit" →
  (∀ t, In t timers → kdbg_parent t = Some parent) →
  getattr (attrs σ) parent "wait_never" = Some never →
  getattr (attrs σ) parent "wait_always" = Some always →
  dpc_each img timers σ
  = (Returned (map (λ t, KDPC (decode (m_Dpc t) (obj_offset (timer_obj t))
                                       never always)) timers), σ).
Proof.
  intros H Hall Hn Ha. induction timers as [|t rest IH]; simpl; [done|].
  unfold bind.
  rewrite (Dpc_cached img t σ parent never always) by (done || apply Hall; by left).
  rewrite IH; [done|]. intros t' Ht'. apply Hall. by right.
Qed.

Lemma dpc_each_scan_missing img timers parent σ :
  memory_model img ≠ Some "32bit" →
  (∀ t, In t timers → kdbg_parent t = Some parent) →
  kdbg_scan img = None →
  has_secrets (attrs σ) parent = false →
  dpc_each img timers σ
  = (Returned (map (λ _, NoneObject "Cannot find KDBG structure") timers),
     mkState (attrs σ) (scans σ + length timers)).
Proof.
  intros H Hall Hk. revert σ.
  induction timers as [|t rest IH]; intros σ Hs; simpl.
  - unfold ret. destruct σ as [a s]. simpl. do 2 f_equal. lia.
  - unfold bind.
    rewrite (Dpc_scan_missing img t σ parent) by (done || apply Hall; by left).
    rewrite IH; [|intros t' Ht'; apply Hall; by right|done].
    simpl. do 2 f_equal. lia.
Qed.

(** C5, as amended. Records that resolve to the same debugger structure on
    a 64-bit target.  When the scan finds the block with the pair
    (never, always): if the structure already carries both secrets, no scan
    is run, the state is untouched and every record decodes with the pair it
    carries; otherwise the scan is run exactly once, on the first access,
    its pair is stored as the attributes [wait_never] and [wait_always] of the
    structure, and every record, the first and all later ones, decodes with
    that very pair.  When the scan does not find the block nothing is
    cached, so every access runs the scan again and yields the
    "Cannot find KDBG structure" object. *)
Theorem C5_scan_once_on_success_again_on_failure :
  ∀ (img : Image) (timers : list KTIMER) (parent : BaseObject) (σ : State),
    memory_model img ≠ Some "32bit" →
    (∀ t, In t timers → kdbg_parent t = Some parent) →
    match kdbg_scan img with
    | Some (never, always) =>
        (∀ n a,
           getattr (attrs σ) parent "wait_never" = Some n →
           getattr (attrs σ) parent "wait_always" = Some a →
           dpc_each img timers σ
           = (Returned (map (λ t, KDPC (decode (m_Dpc t) (obj_offset (timer_obj t))
                                               n a)) timers), σ))
        ∧ (has_secrets (attrs σ) parent = false → timers ≠ [] →
           ∃ σ',
             dpc_each img timers σ
             = (Returned (map (λ t, KDPC (decode (m_Dpc t)
                                                 (obj_offset (timer_obj t))
                                                 never always)) timers), σ')
             ∧ scans σ' = S (scans σ)
             ∧ attrs σ' = newattr (newattr (attrs σ) parent "wait_never" never)
                                  parent "wait_always" always
             ∧ getattr (attrs σ') parent "wait_never" = Some never
             ∧ getattr (attrs σ') parent "wait_always" = Some always)
        ∧ (∃ ds σ', dpc_each img timers σ = (Returned ds, σ')
                    ∧ (scans σ' ≤ S (scans σ))%nat)
    | None =>
        has_secrets (attrs σ) parent = false →
        dpc_each img timers σ
        = (Returned (map (λ _, NoneObject "Cannot find KDBG structure") timers),
           mkState (attrs σ) (scans σ + length timers))
    end.
Proof.
  intros img timers parent σ H Hall.
  destruct (kdbg_scan img) as [[never always]|] eqn:Hk.
  2: { intros Hs. by apply (dpc_each_scan_missing img timers parent). }
  assert (Hfirst : has_secrets (attrs σ) parent = false → timers ≠ [] →
    ∃ σ',
      dpc_each img timers σ
      = (Returned (map (λ t, KDPC (decode (m_Dpc t) (obj_offset (timer_obj t))
                                          never always)) timers), σ')
      ∧ scans σ' = S (scans σ)
      ∧ attrs σ' = newattr (newattr (attrs σ) parent "wait_never" never)
                           parent "wait_always" always
      ∧ getattr (attrs σ') parent "wait_never" = Some never
      ∧ getattr (attrs σ') parent "wait_always" = Some always).
  { intros Hs Hne. destruct timers as [|t rest]; [done|].
    set (σ1 := mkState (newattr (newattr (attrs σ) parent "wait_never" never)
                                parent "wait_always" always) (S (scans σ))).
    assert (Hn : getattr (attrs σ1) parent "wait_never" = Some never).
    { simpl. by rewrite getattr_newattr_other, getattr_newattr_same. }
    assert (Ha : getattr (attrs σ1) parent "wait_always" = Some always).
    { simpl. by rewrite getattr_newattr_same. }
    exists σ1. cbn [dpc_each map]. unfold bind.
    rewrite (Dpc_scan_found img t σ parent never always)
      by (done || apply Hall; by left).
    fold σ1.
    rewrite (dpc_each_cached img rest parent σ1 never always)
      by (done || intros t' Ht'; apply Hall; by right).
    done. }
  split; [|split].
  - intros n a Hn Ha. by apply (dpc_each_cached img timers parent σ n a).
  - exact Hfirst.
  - destruct (has_secrets (attrs σ) parent) eqn:Hs.
    + apply has_secrets_true in Hs as (n & a & Hn & Ha).
      eexists _, σ. split; [by apply (dpc_each_cached img timers parent σ n a)|lia].
    + destruct timers as [|t rest].
      * exists [], σ. split; [done|lia].
      * destruct (Hfirst eq_refl ltac:(done)) as (σ' & Hrun & Hsc & _).
        eexists _, σ'. split; [exact Hrun|lia].
Qed.

Lemma C5_scan_once_on_success_again_on_failure_witness :
  ∃ σ',
    dpc_each Sample.win8_x64 [Sample.timer_a; Sample.timer_b; Sample.timer_a]
             Sample.fresh
    = (Returned [KDPC 0xf3cdb562e4149591; KDPC 0x5d8c7adba3f897b1;
                 KDPC 0xf3cdb562e4149591], σ')
    ∧ scans σ' = 1%nat
    ∧ attrs σ' = newattr (newattr ∅ Sample.kdbg_obj "wait_never" Sample.wait_never)
                         Sample.kdbg_obj "wait_always" Sample.wait_always
    ∧ getattr (attrs σ') Sample.kdbg_obj "wait_never" = Some Sample.wait_never
    ∧ getattr (attrs σ') Sample.kdbg_obj "wait_always" = Some Sample.wait_always.
Proof.
  refine (proj1 (proj2
    (C5_scan_once_on_success_again_on_failure Sample.win8_x64
       [Sample.timer_a; Sample.timer_b; Sample.timer_a]
       Sample.kdbg_obj Sample.fresh _ _)) _ _).
  - vm_compute. congruence.
  - intros t Ht. simpl in Ht. destruct Ht as [<-|[<-|[<-|[]]]]; reflexivity.
  - reflexivity.
  - discriminate.
Defined.

(** After a failed bootstrap the next access runs the scan again: on an
    image whose debugger block cannot be found, the first access fails after
    one scan and the second access fails after a second scan. *)
Lemma C5_failure_is_not_cached :
  Dpc Sample.win8_x64_no_kdbg Sample.timer_a Sample.fresh
  = (Returned (NoneObject "Cannot find KDBG structure"), mkState ∅ 1)
  ∧ Dpc Sample.win8_x64_no_kdbg Sample.timer_b (mkState ∅ 1)
    = (Returned (NoneObject "Cannot find KDBG structure"), mkState ∅ 2)
  ∧ scans (dpc_each Sample.win8_x64_no_kdbg [Sample.timer_a; Sample.timer_b]
                    Sample.fresh).2 = 2%nat.
Proof. repeat split; reflexivity. Qed.

(* ===================================================================== *)
(** ** Version dispatch *)
(* ===================================================================== *)

Ltac version_cases :=
  unfold select_branch, version_eq, version_ge; simpl;
  repeat match goal with
         | |- context [?a =? ?b] => destruct (Z.eqb_spec a b); try lia
         | |- context [?a <? ?b] => destruct (Z.ltb_spec a b); try lia
         | |- context [?a <=? ?b] => destruct (Z.leb_spec a b); try lia
         end; simpl; try done.

Lemma select_branch_C major minor build bits :
  6 < major ∨ (major = 6 ∧ 1 <= minor) →
  select_branch major minor build bits = Some BranchC.
Proof. intros H. version_cases. Qed.

Lemma select_branch_none major minor build bits :
  select_branch major minor build bits = None
  ↔ major < 5 ∨ (major = 5 ∧ minor ≠ 1 ∧ minor ≠ 2) ∨ (major = 6 ∧ minor < 0).
Proof.
  split.
  - unfold select_branch, version_eq, version_ge. simpl.
    destruct (Z.eqb_spec major 5), (Z.eqb_spec minor 1), (Z.eqb_spec minor 2),
      (Z.eqb_spec build 3789), (Z.eqb_spec major 6), (Z.eqb_spec minor 0),
      (Z.ltb_spec 6 major), (Z.leb_spec 1 minor); simpl; try done; lia.
  - intros H. version_cases.
Qed.

Lemma select_branch_A major minor build bits :
  (major = 5 ∧ minor = 1) ∨ (major = 5 ∧ minor = 2 ∧ build = 3789) →
  select_branch major minor build bits = Some BranchA.
Proof. intros H. version_cases. Qed.

Lemma select_branch_B major minor build bits :
  (major = 5 ∧ minor = 2 ∧ build ≠ 3789) ∨ (major = 6 ∧ minor = 0) →
  select_branch major minor build bits = Some BranchB.
Proof. intros H. version_cases. Qed.

(** C2. The branch depends on (major, minor, build) only, whatever the
    memory model: (5,1) and (5,2) with build 3789 take branch A; any other
    (5,2) and every (6,0) take branch B; every pair from (6,1) on, (7,0)
    included, takes branch C, and (6,1) with build 0 is the first such
    version.  What each branch walks: on a branch-A version the timers are
    those of the 256 list heads laid out one [_LIST_ENTRY] apart from the
    table head (the configured ListHead, or the location found after the
    KeUpdateSystemTime signature); on a branch-B version they are those of
    the lists embedded at [Entry] in the 512 table entries laid out one
    [_KTIMER_TABLE_ENTRY] apart from the table head (the configured ListHead,
    or the first truthy result over the signature list); on a branch-C
    version they are those of the timer tables of every processor, and no
    table head is looked up.  A falsy table head gives the warning and no
    timers. *)
Theorem C2_branch_selection :
  ∀ (cfg : Config) (img : Image) (b : Z) (bits : option string),
    (select_branch 5 1 b bits = Some BranchA
     ∧ select_branch 5 2 3789 bits = Some BranchA
     ∧ (b ≠ 3789 → select_branch 5 2 b bits = Some BranchB)
     ∧ select_branch 6 0 b bits = Some BranchB
     ∧ (∀ major minor, 6 < major ∨ (major = 6 ∧ 1 <= minor) →
          select_branch major minor b bits = Some BranchC)
     ∧ (∀ minor, select_branch 7 minor b bits = Some BranchC)
     ∧ select_branch 6 1 0 bits = Some BranchC
     ∧ (∀ major minor bits', select_branch major minor b bits
                             = select_branch major minor b bits'))
    ∧ ((major img = 5 ∧ minor img = 1)
       ∨ (major img = 5 ∧ minor img = 2 ∧ build img = 3789) →
       ∀ head,
         (∃ v, config_head cfg = Some v ∧ head = HeadConfig v)
         ∨ (∃ nt_mod rest,
              config_head cfg = None ∧ modlist img = nt_mod :: rest
              ∧ head = find_list_head img nt_mod "KeUpdateSystemTime" sig_A) →
         collect_timers cfg img
         = if head_truth img head
           then Returned
                  ([], flat_map (list_of_type img)
                         (map (λ i, head_offset img head
                                    + Z.of_nat i * sizeof_LIST_ENTRY img)
                              (seq 0 256)))
           else Returned (["Cannot find KiTimerTableListHead"], []))
    ∧ ((major img = 5 ∧ minor img = 2 ∧ build img ≠ 3789)
       ∨ (major img = 6 ∧ minor img = 0) →
       ∀ head,
         (∃ v, config_head cfg = Some v ∧ head = HeadConfig v)
         ∨ (∃ nt_mod rest,
              config_head cfg = None ∧ modlist img = nt_mod :: rest
              ∧ head = try_sigs img nt_mod (sigData img) HeadNone) →
         collect_timers cfg img
         = if head_truth img head
           then Returned
                  ([], flat_map (λ entry, list_of_type img (entry + Entry_offset))
                         (map (λ i, head_offset img head
                                    + Z.of_nat i * sizeof_KTIMER_TABLE_ENTRY img)
                              (seq 0 512)))
           else Returned (["Cannot find KiTimerTableListHead"], []))
    ∧ (6 < major img ∨ (major img = 6 ∧ 1 <= minor img) →
       collect_timers cfg img
       = Returned ([], flat_map (λ entries, flat_map (list_of_type img) entries)
                         (kpcr_timer_entries img))).
Proof.
  intros cfg img b bits. split; [|split; [|split]].
  - split_and!.
    + version_cases.
    + reflexivity.
    + intros H. version_cases.
    + version_cases.
    + intros major minor H. by apply select_branch_C.
    + intros minor. apply select_branch_C. lia.
    + reflexivity.
    + reflexivity.
  - intros Hv head Hhead. unfold collect_timers.
    rewrite (select_branch_A _ _ _ _ Hv). unfold branch_A.
    destruct Hhead as [(v & -> & ->)|(nt_mod & rest & -> & -> & ->)];
      by destruct (head_truth img _).
  - intros Hv head Hhead. unfold collect_timers.
    rewrite (select_branch_B _ _ _ _ Hv). unfold branch_B.
    destruct Hhead as [(v & -> & ->)|(nt_mod & rest & -> & -> & ->)];
      by destruct (head_truth img _).
  - intros Hv. unfold collect_timers. by rewrite (select_branch_C _ _ _ _ Hv).
Qed.

(** Branch A on a concrete image: the record hangs off the first of the 256
    list heads at the configured address. *)
Example branch_A_walks_the_configured_table :
  collect_timers (mkConfig (Some 0x5000)) Cases.winxp_no_modules
  = Returned ([], [Sample.timer_a; Sample.timer_bad]).
Proof. vm_compute. reflexivity. Qed.

(** Branch C on a concrete image: the records of the processor's table. *)
Example branch_C_walks_the_processor_tables :
  collect_timers Sample.no_config Sample.win8_x64
  = Returned ([], [Sample.timer_a; Sample.timer_b]).
Proof. vm_compute. reflexivity. Qed.

(* ===================================================================== *)
(** ** Pointer-relative resolution *)
(* ===================================================================== *)

Lemma byte_value_range b : Bits.byte_range (byte_value b).
Proof.
  unfold Bits.byte_range, byte_value.
  pose proof (Byte.to_N_bounded b). lia.
Qed.

Lemma below_of_bits k x :
  0 <= k → 0 <= x → (∀ i, k <= i → Z.testbit x i = false) → x < 2 ^ k.
Proof.
  intros Hk H0 H.
  destruct (Z.eq_dec x 0) as [->|Hx]; [by apply Z.pow_pos_nonneg|].
  apply Z.log2_lt_pow2; [lia|].
  destruct (Z_lt_le_dec (Z.log2 x) k) as [|Hge]; [done|].
  specialize (H (Z.log2 x) Hge). rewrite Z.bit_log2 in H by lia. done.
Qed.

Lemma unpack_I_range img addr : 0 <= unpack_I (zread img addr 4) < 2 ^ 32.
Proof.
  unfold unpack_I.
  assert (Hr : Forall Bits.byte_range (map byte_value (zread img addr 4))).
  { apply List.Forall_forall. intros b Hb. apply in_map_iff in Hb as (c & <- & _).
    apply byte_value_range. }
  split; [by apply le_value_nonneg|].
  apply below_of_bits; [lia|by apply le_value_nonneg|].
  intros i Hi. apply le_value_high; [done|].
  unfold zread. rewrite !length_map, length_seq. lia.
Qed.

(** What the function computes once the signature is found at [n]: the
    displacement bytes are taken unsigned, so the result is the signed sum
    when the displacement is non-negative and 2^32 above it otherwise. *)
Lemma find_list_head_offset_unsigned img nt_mod func sig func_rva :
  getprocaddress nt_mod func = Some func_rva →
  let func_addr := func_rva + DllBase nt_mod in
  let n := bytes_find (zread img func_addr 300) sig in
  let ptr := zread img (func_addr + n + Z.of_nat (length sig)) 4 in
  n ≠ -1 →
  find_list_head_offset img nt_mod func sig
  = Some (signed_target img func_addr n sig
          + (if signed32 ptr <? 0 then 2 ^ 32 else 0)).
Proof.
  intros Hfunc func_addr n ptr Hn.
  unfold find_list_head_offset. rewrite Hfunc. fold func_addr. fold n.
  destruct (Z.eqb_spec n (-1)); [done|]. f_equal.
  unfold signed_target. fold ptr.
  pose proof (unpack_I_range img (func_addr + n + Z.of_nat (length sig))) as Hr.
  fold ptr in Hr. unfold signed32.
  destruct (Z.ltb_spec (unpack_I ptr) (2 ^ 31)).
  - destruct (Z.ltb_spec (unpack_I ptr) 0); lia.
  - destruct (Z.ltb_spec (unpack_I ptr - 2 ^ 32) 0); lia.
Qed.

(** C3, at a negative displacement. [KeCancelTimer] at 0x1100 carries the
    signature at offset 2 followed by the bytes f0 ff ff ff: as a signed
    displacement that is -16 and the target is 0x10fe; the function returns
    0x1000010fe, which is 2^32 more. *)
Theorem C3_negative_displacement_is_read_unsigned :
  let img := Sample.image_negative_displacement in
  let sig := Sample.sig_KeCancelTimer_64 in
  getprocaddress Sample.module_nt "KeCancelTimer" = Some 0x100
  ∧ bytes_find (zread img 0x1100 300) sig = 2
  ∧ signed32 (zread img (0x1100 + 2 + 8) 4) = -16
  ∧ signed_target img 0x1100 2 sig = 0x10fe
  ∧ find_list_head_offset img Sample.module_nt "KeCancelTimer" sig
    = Some 0x1000010fe.
Proof. repeat split; vm_compute; reflexivity. Qed.

(** The wrong address is what branch B then uses as the table offset. *)
Example negative_displacement_reaches_branch_B :
  select_branch 6 0 6002 (Some "64bit") = Some BranchB
  ∧ try_sigs Sample.image_negative_displacement Sample.module_nt
             (sigData Sample.image_negative_displacement) HeadNone
    = HeadInt 0x1000010fe.
Proof. split; vm_compute; reflexivity. Qed.

(* ===================================================================== *)
(** ** The loop of calculate *)
(* ===================================================================== *)

Section Loop.
Context (img : Image) (mods : gmap Z LDR_DATA_TABLE_ENTRY) (mod_addrs : list Z).

Lemma calculate_loop_cons t rest σ :
  calculate_loop img mods mod_addrs (t :: rest) σ
  = if keeps t then
      match Dpc img t σ with
      | (Returned dpc, σ1) =>
          match calculate_loop img mods mod_addrs rest σ1 with
          | (Returned more, σ2) =>
              (Returned ((t, find_module mods mod_addrs
                               (address_mask img <$> DeferredRoutine img dpc))
                         :: more), σ2)
          | (Raised e, σ2) => (Raised e, σ2)
          end
      | (Raised e, σ1) => (Raised e, σ1)
      end
    else calculate_loop img mods mod_addrs rest σ.
Proof.
  unfold keeps. cbn [calculate_loop].
  destruct (type_in (Header_Type t) valid_types); reflexivity.
Qed.

(** The loop always runs to its end, and the records it yields are the
    records with a valid type, in order. *)
Lemma calculate_loop_returns timers σ :
  ∃ pairs σ',
    calculate_loop img mods mod_addrs timers σ = (Returned pairs, σ')
    ∧ map fst pairs = List.filter keeps timers.
Proof.
  revert σ. induction timers as [|t rest IH]; intros σ.
  - by exists [], σ.
  - rewrite calculate_loop_cons. cbn [List.filter]. destruct (keeps t).
    + destruct (Dpc_returns img t σ) as (d & σ1 & Hd).
      destruct (IH σ1) as (pairs & σ2 & Hrun & Hfst).
      eexists (_ :: pairs), σ2. rewrite Hd, Hrun. cbn [map fst].
      by rewrite Hfst.
    + apply IH.
Qed.

Lemma calculate_loop_app pre post σ out_pre σ1 :
  calculate_loop img mods mod_addrs pre σ = (Returned out_pre, σ1) →
  ∃ out_post σ2,
    calculate_loop img mods mod_addrs post σ1 = (Returned out_post, σ2)
    ∧ calculate_loop img mods mod_addrs (pre ++ post) σ
      = (Returned (out_pre ++ out_post), σ2).
Proof.
  revert σ out_pre. induction pre as [|t rest IH]; intros σ out_pre Hpre.
  - injection Hpre as <- <-.
    destruct (calculate_loop_returns post σ) as (out & σ2 & Hrun & _). eauto.
  - rewrite <- app_comm_cons. rewrite calculate_loop_cons in *.
    destruct (keeps t).
    + destruct (Dpc img t σ) as [[d|e] σa]; [|done].
      destruct (calculate_loop img mods mod_addrs rest σa) as [[more|e] σb] eqn:Hrest;
        [|done].
      injection Hpre as <- <-.
      destruct (IH σa more Hrest) as (out_post & σ2 & Hpost & Happ).
      exists out_post, σ2. by rewrite Happ.
    + by apply IH.
Qed.

Lemma calculate_loop_failed_dpc timer post σ reason :
  keeps timer = true →
  (Dpc img timer σ).1 = Returned (NoneObject reason) →
  ∃ out_post σ2,
    calculate_loop img mods mod_addrs (timer :: post) σ
    = (Returned ((timer, None) :: out_post), σ2).
Proof.
  intros Hk Hd. rewrite calculate_loop_cons, Hk.
  destruct (Dpc img timer σ) as [r σa]. simpl in Hd. subst r.
  destruct (calculate_loop_returns post σa) as (out & σ2 & Hrun & _).
  exists out, σ2. by rewrite Hrun.
Qed.

End Loop.

Lemma keeps_spec t :
  keeps t = (Header_Type t =? 8) || (Header_Type t =? 9).
Proof. unfold keeps, type_in, valid_types. simpl. by rewrite orb_false_r. Qed.

(** C9. Of the timers collected by the version chain, [calculate] yields
    exactly those whose header type is 8 or 9, in order; a record of type 7
    is not yielded and a record of type 8 or 9 is. *)
Theorem C9_type_filter :
  ∀ (cfg : Config) (img : Image) (σ : State) (warnings : list string)
    (timers : list KTIMER),
    collect_timers cfg img = Returned (warnings, timers) →
    ∃ pairs σ',
      calculate cfg img σ = (Returned (warnings, pairs), σ')
      ∧ map fst pairs
        = List.filter (λ t, (Header_Type t =? TimerNotificationObject)
                            || (Header_Type t =? TimerSynchronizationObject)) timers
      ∧ (∀ t, In t timers →
           (In t (map fst pairs) ↔ Header_Type t = 8 ∨ Header_Type t = 9))
      ∧ (∀ t, Header_Type t = 7 → ¬ In t (map fst pairs)).
Proof.
  intros cfg img σ warnings timers Hc.
  destruct (calculate_loop_returns img (mods_of img) (mod_addrs_of (mods_of img))
              timers σ) as (pairs & σ' & Hrun & Hfst).
  exists pairs, σ'.
  assert (Hin : ∀ t, In t (map fst pairs)
                     ↔ In t timers ∧ (Header_Type t = 8 ∨ Header_Type t = 9)).
  { intros t. rewrite Hfst, filter_In, keeps_spec, orb_true_iff, !Z.eqb_eq. done. }
  split_and!.
  - unfold calculate. rewrite Hc. unfold bind. by rewrite Hrun.
  - rewrite Hfst. apply filter_ext. intros t. apply keeps_spec.
  - intros t Ht. rewrite Hin. tauto.
  - intros t H7 Ht. apply Hin in Ht. lia.
Qed.

Lemma C9_type_filter_witness :
  ∃ pairs σ',
    calculate Sample.no_config Sample.win8_x64_no_kdbg Sample.fresh
    = (Returned ([], pairs), σ')
    ∧ map fst pairs
      = List.filter (λ t, (Header_Type t =? TimerNotificationObject)
                          || (Header_Type t =? TimerSynchronizationObject))
                    [Sample.timer_a; Sample.timer_bad; Sample.timer_b]
    ∧ (∀ t, In t [Sample.timer_a; Sample.timer_bad; Sample.timer_b] →
         (In t (map fst pairs) ↔ Header_Type t = 8 ∨ Header_Type t = 9))
    ∧ (∀ t, Header_Type t = 7 → ¬ In t (map fst pairs)).
Proof.
  apply (C9_type_filter Sample.no_config Sample.win8_x64_no_kdbg Sample.fresh []
           [Sample.timer_a; Sample.timer_bad; Sample.timer_b]).
  reflexivity.
Defined.

(** C6, as amended. When no branch matches, [calculate] ends normally: it
    raises nothing, emits no warning, yields no record and leaves the state
    untouched (no table is looked up). *)
Theorem C6_unsupported_version_yields_nothing :
  ∀ (cfg : Config) (img : Image) (σ : State),
    select_branch (major img) (minor img) (build img) (memory_model img) = None →
    collect_timers cfg img = Returned ([], [])
    ∧ calculate cfg img σ = (Returned ([], []), σ).
Proof.
  intros cfg img σ H.
  assert (Hc : collect_timers cfg img = Returned ([], [])).
  { unfold collect_timers. by rewrite H. }
  split; [done|]. unfold calculate. by rewrite Hc.
Qed.

Lemma C6_unsupported_version_yields_nothing_witness :
  collect_timers Sample.no_config Sample.win2000 = Returned ([], [])
  ∧ calculate Sample.no_config Sample.win2000 Sample.fresh
    = (Returned ([], []), Sample.fresh).
Proof.
  apply (C6_unsupported_version_yields_nothing Sample.no_config Sample.win2000
           Sample.fresh).
  reflexivity.
Defined.

(** On version (5,0) no branch matches and the run does not fail: it
    returns, with no warning and no record. *)
Lemma C6_no_error_is_raised :
  select_branch (major Sample.win2000) (minor Sample.win2000)
                (build Sample.win2000) (memory_model Sample.win2000) = None
  ∧ (calculate Sample.no_config Sample.win2000 Sample.fresh).1 = Returned ([], [])
  ∧ ¬ ∃ e, (calculate Sample.no_config Sample.win2000 Sample.fresh).1 = Raised e.
Proof.
  split_and!; [reflexivity|reflexivity|].
  intros [e He]. vm_compute in He. discriminate.
Qed.

(** C8. A record of the collected list whose callback cannot be resolved
    when the loop reaches it (the property yields a [NoneObject]: no
    debugger structure above it, or the debugger block cannot be found) is
    yielded all the same, paired with no module; both presenters then print
    the module name "UNKNOWN" for it.  The property is only ever accessed for
    records that passed the type check, hence [keeps timer]. *)
Theorem C8_unresolved_callback_is_still_emitted :
  ∀ (cfg : Config) (img : Image) (σ : State) (warnings : list string)
    (pre : list KTIMER) (timer : KTIMER) (post : list KTIMER)
    (out_pre : list (KTIMER * option LDR_DATA_TABLE_ENTRY)) (σ1 : State)
    (reason : string),
    collect_timers cfg img = Returned (warnings, pre ++ timer :: post) →
    keeps timer = true →
    calculate_loop img (mods_of img) (mod_addrs_of (mods_of img)) pre σ
    = (Returned out_pre, σ1) →
    (Dpc img timer σ1).1 = Returned (NoneObject reason) →
    (∃ out_post σ2,
       calculate cfg img σ
       = (Returned (warnings, out_pre ++ (timer, None) :: out_post), σ2))
    ∧ (∀ σ', ∃ row σ'',
         generator img [(timer, None)] σ' = (Returned [row], σ'')
         ∧ render_text img [(timer, None)] σ' = (Returned [row], σ'')
         ∧ row_offset row = obj_offset (timer_obj timer)
         ∧ row_module row = "UNKNOWN").
Proof.
  intros cfg img σ warnings pre timer post out_pre σ1 reason Hc Hk Hpre Hd.
  split.
  - destruct (calculate_loop_failed_dpc img (mods_of img)
                (mod_addrs_of (mods_of img)) timer post σ1 reason Hk Hd)
      as (out_post & σ2 & Hpost).
    destruct (calculate_loop_app img (mods_of img) (mod_addrs_of (mods_of img))
                pre (timer :: post) σ out_pre σ1 Hpre)
      as (out' & σ2' & Hpost' & Happ).
    rewrite Hpost in Hpost'. injection Hpost' as <- <-.
    exists out_post, σ2. unfold calculate. rewrite Hc. unfold bind.
    by rewrite Happ.
  - intros σ'. destruct (Dpc_returns img timer σ') as (d & σ'' & Hd').
    eexists _, σ''. cbn [generator render_text]. unfold bind.
    rewrite Hd'. unfold ret. split_and!; reflexivity.
Qed.

Lemma C8_unresolved_callback_is_still_emitted_witness :
  (∃ out_post σ2,
     calculate Sample.no_config Sample.win8_x64_no_kdbg Sample.fresh
     = (Returned ([], [(Sample.timer_a, None)] ++ (Sample.timer_b, None) :: out_post),
        σ2))
  ∧ (∀ σ', ∃ row σ'',
       generator Sample.win8_x64_no_kdbg [(Sample.timer_b, None)] σ'
       = (Returned [row], σ'')
       ∧ render_text Sample.win8_x64_no_kdbg [(Sample.timer_b, None)] σ'
         = (Returned [row], σ'')
       ∧ row_offset row = obj_offset (timer_obj Sample.timer_b)
       ∧ row_module row = "UNKNOWN").
Proof.
  apply (C8_unresolved_callback_is_still_emitted Sample.no_config
           Sample.win8_x64_no_kdbg Sample.fresh []
           [Sample.timer_a; Sample.timer_bad] Sample.timer_b []
           [(Sample.timer_a, None)] (mkState ∅ 1)
           "Cannot find KDBG structure");
    reflexivity.
Defined.

(* ===================================================================== *)
(** ** Presentation *)
(* ===================================================================== *)

Lemma nibbles_zero k : nibbles k 0 = repeat 0 k.
Proof.
  induction k as [|k IH]; [done|]. cbn [nibbles repeat].
  change (0 mod 16) with 0. change (0 / 16) with 0. by rewrite IH.
Qed.

Lemma hex_le_padded k fuel n :
  (1 ≤ k)%nat → 0 <= n < 16 ^ Z.of_nat k → 0 <= n < 16 ^ Z.of_nat fuel →
  hex_le fuel n ++ repeat 0 (k - length (hex_le fuel n)) = nibbles k n.
Proof.
  revert fuel n. induction k as [|k IH]; intros fuel n Hk Hn Hf; [lia|].
  destruct fuel as [|fuel].
  { assert (n = 0) as -> by (simpl in Hf; lia). by rewrite nibbles_zero. }
  cbn [hex_le nibbles]. destruct (Z.ltb_spec n 16).
  - rewrite Z.mod_small, Z.div_small by lia. rewrite nibbles_zero. simpl.
    by rewrite Nat.sub_0_r.
  - rewrite Nat2Z.inj_succ, Z.pow_succ_r in Hn, Hf by lia.
    assert (k ≠ 0%nat) by (intros ->; simpl in Hn; lia).
    cbn [app length]. rewrite Nat.sub_succ. f_equal.
    apply IH; [lia| |]; (split; [apply Z.div_pos; lia|]);
      apply Z.div_lt_upper_bound; lia.
Qed.

Lemma hex_fuel_enough n : 0 <= n → n < 16 ^ Z.of_nat (S (Z.to_nat (Z.log2 n))).
Proof.
  intros Hn. destruct (Z.eq_dec n 0) as [->|Hne]; [done|].
  pose proof (Z.log2_nonneg n) as Hl.
  rewrite Nat2Z.inj_succ, Z2Nat.id by done.
  pose proof (Z.log2_spec n ltac:(lia)) as [_ Hlt].
  eapply Z.lt_le_trans; [exact Hlt|].
  change 16 with (2 ^ 4). rewrite <- Z.pow_mul_r by lia.
  apply Z.pow_le_mono_r; lia.
Qed.

Lemma map_hex_digit_zeros m : map hex_digit (repeat 0 m) = repeat "0"%char m.
Proof. induction m as [|m IH]; simpl; [done|]. by rewrite IH. Qed.

(** For a 32-bit value the format is the prefix 0x and eight digits. *)
Lemma format_hash_010x_u32 n :
  0 <= n < 2 ^ 32 → format_hash_010x n = "0x" +:+ hex8 n.
Proof.
  intros Hn. unfold format_hash_010x, hex8.
  destruct (Z.ltb_spec n 0); [lia|]. rewrite Z.abs_eq by lia.
  cbn [length app]. unfold hex_digits.
  set (digits := hex_le (S (Z.to_nat (Z.log2 n))) n).
  rewrite <- (hex_le_padded 8 (S (Z.to_nat (Z.log2 n))) n);
    [|lia|split; [lia|change (16 ^ Z.of_nat 8) with (2 ^ 32); lia]
     |split; [lia|apply hex_fuel_enough; lia]].
  fold digits. rewrite rev_app_distr, rev_repeat, map_app, map_hex_digit_zeros.
  rewrite length_map, length_rev. reflexivity.
Qed.

Section Presenters.
Context (img : Image).

Lemma generator_cons timer module rest σ :
  generator img ((timer, module) :: rest) σ
  = match Dpc img timer σ with
    | (Returned dpc, σ1) =>
        match generator img rest σ1 with
        | (Returned rows, σ2) =>
            (Returned
               (mkRow (obj_offset (timer_obj timer))
                      (format_hash_010x (DueTime_HighPart timer) +:+ ":" +:+
                       format_hash_010x (DueTime_LowPart timer))
                      (Period timer)
                      (if negb (Header_SignalState timer =? 0) then "Yes" else "-")
                      (DeferredRoutine img dpc)
                      (match module with
                       | Some m => default EmptyString (BaseDllName m)
                       | None => "UNKNOWN"
                       end) :: rows), σ2)
        | (Raised e, σ2) => (Raised e, σ2)
        end
    | (Raised e, σ1) => (Raised e, σ1)
    end.
Proof. reflexivity. Qed.

(** The two presenters are the same computation. *)
Lemma render_text_generator data σ : render_text img data σ = generator img data σ.
Proof.
  revert σ. induction data as [|[timer module] rest IH]; intros σ; [done|].
  cbn [render_text generator]. unfold bind.
  destruct (Dpc img timer σ) as [[d|e] σ1]; [|done].
  by rewrite IH.
Qed.

End Presenters.

Lemma generator_rows img data σ :
  ∃ rows σ',
    generator img data σ = (Returned rows, σ')
    ∧ Forall2 (λ p row,
         row_offset row = obj_offset (timer_obj p.1)
         ∧ row_period row = Period p.1
         ∧ row_signaled row = signaled_text (Header_SignalState p.1)
         ∧ row_module row
           = match p.2 with
             | Some m => default EmptyString (BaseDllName m)
             | None => "UNKNOWN"
             end
         ∧ row_due_time row
           = format_hash_010x (DueTime_HighPart p.1) +:+ ":" +:+
             format_hash_010x (DueTime_LowPart p.1))
       data rows.
Proof.
  revert σ. induction data as [|[timer module] rest IH]; intros σ.
  - exists [], σ. split; [done|constructor].
  - rewrite generator_cons.
    destruct (Dpc_returns img timer σ) as (d & σ1 & ->).
    destruct (IH σ1) as (rows & σ2 & -> & Hrows).
    eexists (_ :: rows), σ2. split; [reflexivity|].
    constructor; [|done]. cbn. split_and!; try reflexivity.
    unfold signaled_text. by destruct (Header_SignalState timer =? 0).
Qed.

(** C10, as amended. On the same data and state the two presenters produce
    the same rows (and leave the same state).  In each row the signaled text
    is "Yes" exactly when the signal state is non-zero and "-" otherwise; the
    module name is "UNKNOWN" when no module was attributed and otherwise the
    module's base name (the empty text when the name cannot be read); and for
    32-bit halves the due time is 0x and eight hexadecimal digits of the high
    part, a colon, then 0x and eight hexadecimal digits of the low part. *)
Theorem C10_presenters_agree :
  ∀ (img : Image) (data : list (KTIMER * option LDR_DATA_TABLE_ENTRY)) (σ : State),
    render_text img data σ = generator img data σ
    ∧ ∃ rows σ',
        generator img data σ = (Returned rows, σ')
        ∧ Forall2 (λ p row,
             (row_signaled row = "Yes" ↔ Header_SignalState p.1 ≠ 0)
             ∧ (row_signaled row = "-" ↔ Header_SignalState p.1 = 0)
             ∧ (p.2 = None → row_module row = "UNKNOWN")
             ∧ (∀ m, p.2 = Some m → row_module row = default EmptyString (BaseDllName m))
             ∧ (0 <= DueTime_HighPart p.1 < 2 ^ 32 →
                0 <= DueTime_LowPart p.1 < 2 ^ 32 →
                row_due_time row
                = "0x" +:+ hex8 (DueTime_HighPart p.1) +:+ ":" +:+
                  "0x" +:+ hex8 (DueTime_LowPart p.1)))
           data rows.
Proof.
  intros img data σ. split; [apply render_text_generator|].
  destruct (generator_rows img data σ) as (rows & σ' & Hrun & Hrows).
  exists rows, σ'. split; [done|].
  eapply Forall2_impl; [exact Hrows|].
  intros [timer module] row (_ & _ & Hs & Hm & Hd). cbn [fst snd] in *.
  unfold signaled_text in Hs. split_and!.
  - rewrite Hs. destruct (Z.eqb_spec (Header_SignalState timer) 0); split; done.
  - rewrite Hs. destruct (Z.eqb_spec (Header_SignalState timer) 0); split; done.
  - intros ->. done.
  - intros m ->. done.
  - intros Hh Hl. rewrite Hd, !format_hash_010x_u32 by done. reflexivity.
Qed.

(** A loaded module whose base name is the text UNKNOWN: a module is
    attributed, and the row still reads "UNKNOWN". *)
Lemma C10_unknown_is_also_a_module_name :
  ∃ row σ',
    generator Sample.win7_x86
      [(Sample.timer_a, Some Sample.module_named_unknown)] Sample.fresh
    = (Returned [row], σ')
    ∧ row_module row = "UNKNOWN"
    ∧ Some Sample.module_named_unknown ≠ None.
Proof. eexists _, _. split_and!; [reflexivity|reflexivity|done]. Qed.

(** The end-to-end scenario of the specification: one record of type 9 with
    due time (0x00000001, 0x80000000), period 5000 and signal state 1 gives
    one row with due time "0x00000001:0x80000000", period 5000, "Yes". *)
Example end_to_end_row :
  ∃ row σ',
    generator Sample.win7_x86 [(Sample.timer_orphan, None)] Sample.fresh
    = (Returned [row], σ')
    ∧ row_due_time row = "0x00000001:0x80000000"
    ∧ row_period row = 5000
    ∧ row_signaled row = "Yes"
    ∧ row_module row = "UNKNOWN".
Proof. eexists _, _. split_and!; reflexivity. Qed.

(* ===================================================================== *)
(** * Further properties of the plugin *)
(* ===================================================================== *)

(** ** The parent walk of [Dpc] *)

Lemma ancestors_unfold o :
  ancestors o = match obj_parent o with
                | None => []
                | Some p => p :: ancestors p
                end.
Proof. by destruct o. Qed.

Lemma climb_unfold q :
  climb q = if negb (obj_truth q) then None
            else if String.eqb (obj_name q) "_KDDEBUGGER_DATA64" then Some q
            else match obj_parent q with
                 | None => None
                 | Some above => climb above
                 end.
Proof. by destruct q. Qed.

Lemma climb_chain chain :
  ∀ q p, ancestors q = chain →
    (climb q = Some p ↔
     ∃ below above,
       q :: chain = below ++ p :: above
       ∧ Forall passed_over below
       ∧ obj_truth p = true ∧ obj_name p = "_KDDEBUGGER_DATA64").
Proof.
  induction chain as [|q' chain IH]; intros q p Hq;
    rewrite climb_unfold; rewrite ancestors_unfold in Hq.
  - destruct (obj_parent q) as [up|] eqn:Hup; [discriminate Hq|].
    destruct (obj_truth q) eqn:Ht; cbn [negb];
      [destruct (String.eqb_spec (obj_name q) "_KDDEBUGGER_DATA64") as [Hn|Hn]|].
    + split.
      * intros [= <-]. by exists [], [].
      * intros ([|b below] & above & Heq & _); [by injection Heq as <-|].
        injection Heq as _ Heq. by destruct below.
    + split; [done|].
      intros ([|b below] & above & Heq & _ & _ & Hnp).
      * injection Heq as <-. done.
      * injection Heq as _ Heq. by destruct below.
    + split; [done|].
      intros ([|b below] & above & Heq & _ & Htp & _).
      * injection Heq as <-. congruence.
      * injection Heq as _ Heq. by destruct below.
  - destruct (obj_parent q) as [up|] eqn:Hup; [|discriminate Hq].
    injection Hq as -> Hq.
    destruct (obj_truth q) eqn:Ht; cbn [negb];
      [destruct (String.eqb_spec (obj_name q) "_KDDEBUGGER_DATA64") as [Hn|Hn]|].
    + split.
      * intros [= <-]. by exists [], (q' :: chain).
      * intros ([|b below] & above & Heq & Hbelow & _); [by injection Heq as <-|].
        injection Heq as <- _. apply Forall_cons in Hbelow as [[_ Hbn] _]. done.
    + rewrite (IH q' p Hq). split.
      * intros (below & above & Heq & Hbelow & Htp & Hnp).
        exists (q :: below), above. rewrite Heq. split_and!; try done.
        by constructor.
      * intros ([|b below] & above & Heq & Hbelow & Htp & Hnp).
        { injection Heq as <- _. done. }
        injection Heq as <- Heq. apply Forall_cons in Hbelow as [_ Hbelow].
        by exists below, above.
    + split; [done|].
      intros ([|b below] & above & Heq & Hbelow & Htp & _).
      * injection Heq as <- _. congruence.
      * injection Heq as <- _. apply Forall_cons in Hbelow as [[Hbt _] _]. congruence.
Qed.

(** X1. The loop stops at the nearest owning structure that is falsy or is
    the debugger structure: the property finds a parent exactly when the
    nearest such structure is a truthy [_KDDEBUGGER_DATA64], every structure
    below it being truthy and of another type.  A falsy structure below a
    debugger structure hides it. *)
Theorem kdbg_parent_is_nearest :
  ∀ (self : KTIMER) (p : BaseObject),
    kdbg_parent self = Some p ↔
    ∃ below above,
      ancestors (timer_obj self) = below ++ p :: above
      ∧ Forall passed_over below
      ∧ obj_truth p = true ∧ obj_name p = "_KDDEBUGGER_DATA64".
Proof.
  intros self p. unfold kdbg_parent. rewrite ancestors_unfold.
  destruct (obj_parent (timer_obj self)) as [q|].
  - apply (climb_chain (ancestors q) q p eq_refl).
  - split; [done|]. intros (below & above & Heq & _). by destruct below.
Qed.

(** ** What an access to [Dpc] does to the state *)

Lemma getattr_same_id attrs o o' name :
  obj_id o = obj_id o' → getattr attrs o name = getattr attrs o' name.
Proof. intros H. unfold getattr. by rewrite H. Qed.

Lemma has_secrets_same_id attrs o o' :
  obj_id o = obj_id o' → has_secrets attrs o = has_secrets attrs o'.
Proof.
  intros H. unfold has_secrets, hasattr.
  by rewrite !(getattr_same_id attrs o o') by done.
Qed.

Lemma getattr_newattr_other_object attrs o o' name name' v :
  obj_id o ≠ obj_id o' →
  getattr (newattr attrs o name v) o' name' = getattr attrs o' name'.
Proof.
  intros H. unfold getattr, newattr. by rewrite lookup_insert_ne.
Qed.

Lemma getattr_newattr_other_name attrs o name name' v :
  name' ≠ "wait_never" → name' ≠ "wait_always" →
  getattr (newattr (newattr attrs o "wait_never" name) o "wait_always" v) o name'
  = getattr attrs o name'.
Proof.
  intros H1 H2. by rewrite !getattr_newattr_other.
Qed.

(** The three things an access can do to the state. *)
Lemma Dpc_state img self σ :
  (Dpc img self σ).2 = σ
  ∨ ∃ p, kdbg_parent self = Some p
         ∧ memory_model img ≠ Some "32bit"
         ∧ has_secrets (attrs σ) p = false
         ∧ match kdbg_scan img with
           | None => (Dpc img self σ).2 = mkState (attrs σ) (S (scans σ))
           | Some (never, always) =>
               (Dpc img self σ).2
               = mkState (newattr (newattr (attrs σ) p "wait_never" never)
                                  p "wait_always" always)
                         (S (scans σ))
           end.
Proof.
  destruct (decide (memory_model img = Some "32bit")) as [H|H].
  { left. by rewrite Dpc_32bit. }
  destruct (kdbg_parent self) as [p|] eqn:Hp.
  2: { left. by rewrite Dpc_no_parent. }
  destruct (has_secrets (attrs σ) p) eqn:Hs.
  - left. apply has_secrets_true in Hs as (n & a & Hn & Ha).
    by erewrite Dpc_cached.
  - right. exists p. split_and!; try done.
    destruct (kdbg_scan img) as [[n a]|] eqn:Hk.
    + by erewrite Dpc_scan_found.
    + by erewrite Dpc_scan_missing.
Qed.

(** X2. An access to the property always returns (the attribute reads that
    follow the test cannot raise), and it runs the debugger-block scan at
    most once, and only on a non-32-bit image for a record that has a
    debugger structure above it which does not yet carry both secrets. *)
Theorem Dpc_returns_and_scans_only_when_needed :
  ∀ (img : Image) (self : KTIMER) (σ : State),
    ∃ d σ',
      Dpc img self σ = (Returned d, σ')
      ∧ (scans σ' = scans σ
         ∨ (scans σ' = S (scans σ)
            ∧ memory_model img ≠ Some "32bit"
            ∧ ∃ p, kdbg_parent self = Some p
                   ∧ has_secrets (attrs σ) p = false)).
Proof.
  intros img self σ.
  destruct (Dpc_returns img self σ) as (d & σ' & Hd).
  exists d, σ'. split; [done|].
  destruct (Dpc_state img self σ) as [Hst|(p & Hp & H32 & Hs & Hst)];
    rewrite Hd in Hst; cbn [snd] in Hst.
  - left. by subst.
  - right. split_and!; [|done|by exists p].
    destruct (kdbg_scan img) as [[n a]|]; by subst.
Qed.

(** X3. An access changes nothing in the attribute store except, when the
    scan finds the block, the two attributes [wait_never] and [wait_always]
    of the debugger structure above the record, which then hold the scanned
    pair; attributes of other objects and other attributes of that structure
    are left as they were. *)
Theorem Dpc_touches_only_the_secrets :
  ∀ (img : Image) (self : KTIMER) (σ : State) (o : BaseObject) (name : string),
    getattr (attrs (Dpc img self σ).2) o name = getattr (attrs σ) o name
    ∨ ∃ p never always,
        kdbg_parent self = Some p
        ∧ obj_id o = obj_id p
        ∧ has_secrets (attrs σ) p = false
        ∧ kdbg_scan img = Some (never, always)
        ∧ ((name = "wait_never"
            ∧ getattr (attrs (Dpc img self σ).2) o name = Some never)
           ∨ (name = "wait_always"
              ∧ getattr (attrs (Dpc img self σ).2) o name = Some always)).
Proof.
  intros img self σ o name.
  destruct (Dpc_state img self σ) as [->|(p & Hp & H32 & Hs & Hst)]; [by left|].
  destruct (kdbg_scan img) as [[n a]|] eqn:Hk; rewrite Hst; cbn [attrs];
    [|by left].
  destruct (decide (obj_id p = obj_id o)) as [Hid|Hid].
  2: { left. by rewrite !getattr_newattr_other_object. }
  rewrite !(getattr_same_id _ o p) by done.
  destruct (decide (name = "wait_never")) as [->|Hn].
  { right. exists p, n, a. split_and!; try done. left. split; [done|].
    by rewrite getattr_newattr_other, getattr_newattr_same. }
  destruct (decide (name = "wait_always")) as [->|Ha].
  { right. exists p, n, a. split_and!; try done. right. split; [done|].
    by rewrite getattr_newattr_same. }
  left. by apply getattr_newattr_other_name.
Qed.

(** ** The decoded value does not depend on the order of accesses *)

Lemma reached_refl img σ : reached img σ σ.
Proof. intros o. by left. Qed.

Lemma reached_step img σ σ' t :
  reached img σ σ' → reached img σ (Dpc img t σ').2.
Proof.
  intros HR o. pose proof (HR o) as HRo.
  destruct (Dpc_state img t σ') as [->|(p & Hp & H32 & Hs & Hst)]; [done|].
  destruct (kdbg_scan img) as [[n a]|] eqn:Hk; rewrite Hst; cbn [attrs];
    [|done].
  destruct (decide (obj_id p = obj_id o)) as [Hid|Hid].
  2: { by rewrite !getattr_newattr_other_object by done. }
  right. rewrite !(getattr_same_id _ o p) by done.
  rewrite getattr_newattr_other, !getattr_newattr_same by done.
  split; [|by exists n, a].
  rewrite (has_secrets_same_id _ p o) in Hs by done.
  destruct HRo as [[Hn Ha]|[Hso _]]; [|done].
  unfold has_secrets, hasattr in *. by rewrite <- Hn, <- Ha.
Qed.

Lemma Dpc_value_reached img self σ σ' :
  reached img σ σ' → (Dpc img self σ').1 = (Dpc img self σ).1.
Proof.
  intros HR.
  destruct (decide (memory_model img = Some "32bit")) as [H|H].
  { by rewrite !Dpc_32bit. }
  destruct (kdbg_parent self) as [p|] eqn:Hp.
  2: { by rewrite !Dpc_no_parent. }
  destruct (HR p) as [[Hn Ha]|(Hs & n & a & Hk & Hn & Ha)].
  - destruct (has_secrets (attrs σ) p) eqn:Hs.
    + apply has_secrets_true in Hs as (n & a & Hn' & Ha').
      rewrite (Dpc_cached img self σ p n a) by done.
      rewrite (Dpc_cached img self σ' p n a) by congruence. done.
    + assert (Hs' : has_secrets (attrs σ') p = false).
      { unfold has_secrets, hasattr in *. by rewrite Hn, Ha. }
      destruct (kdbg_scan img) as [[n a]|] eqn:Hk.
      * by rewrite !(Dpc_scan_found img self _ p n a).
      * by rewrite !(Dpc_scan_missing img self _ p).
  - rewrite (Dpc_scan_found img self σ p n a) by done.
    by rewrite (Dpc_cached img self σ' p n a).
Qed.

Lemma dpc_each_state img t rest σ :
  (dpc_each img (t :: rest) σ).2 = (dpc_each img rest (Dpc img t σ).2).2.
Proof.
  cbn [dpc_each]. unfold bind.
  destruct (Dpc_returns img t σ) as (d & σ1 & ->). cbn [snd].
  by destruct (dpc_each img rest σ1) as [[ds|e] σ2].
Qed.

Lemma reached_dpc_each img others σ0 σ :
  reached img σ0 σ → reached img σ0 (dpc_each img others σ).2.
Proof.
  revert σ. induction others as [|t rest IH]; intros σ HR; [done|].
  rewrite dpc_each_state. apply IH. by apply reached_step.
Qed.

(** X4. The value a record's callback decodes to does not depend on which
    other records were accessed before it, nor on how often: after any
    sequence of accesses the property yields what it would have yielded in
    the initial state.  In particular a second access repeats the first. *)
Theorem Dpc_value_is_order_independent :
  ∀ (img : Image) (others : list KTIMER) (self : KTIMER) (σ : State),
    (Dpc img self (dpc_each img others σ).2).1 = (Dpc img self σ).1.
Proof.
  intros img others self σ. apply Dpc_value_reached.
  apply reached_dpc_each, reached_refl.
Qed.

(* ===================================================================== *)
(** ** Signature search *)
(* ===================================================================== *)

Lemma starts_with_take sig data :
  starts_with sig data = true ↔ take (length sig) data = sig.
Proof.
  revert data. induction sig as [|s sig IH]; intros data; [done|].
  destruct data as [|d data]; cbn [starts_with length take]; [done|].
  rewrite andb_true_iff, IH. split.
  - intros [Hsd ->]. by rewrite (byte_dec_bl _ _ Hsd).
  - intros [= -> ->]. split; [by apply byte_dec_lb|done].
Qed.

Lemma starts_with_false sig data :
  starts_with sig data = false ↔ take (length sig) data ≠ sig.
Proof.
  rewrite <- starts_with_take. by destruct (starts_with sig data).
Qed.

(** [find_from] returns the lowest matching position, or -1 when no
    position matches. *)
Lemma find_from_spec data sig i :
  (find_from data sig i = -1
   ∧ ∀ k, (k ≤ length data)%nat → take (length sig) (drop k data) ≠ sig)
  ∨ ∃ k, find_from data sig i = i + Z.of_nat k
         ∧ (k ≤ length data)%nat
         ∧ take (length sig) (drop k data) = sig
         ∧ ∀ j, (j < k)%nat → take (length sig) (drop j data) ≠ sig.
Proof.
  revert i. induction data as [|d data IH]; intros i; cbn [find_from].
  - destruct (starts_with sig []) eqn:Hs.
    + right. exists 0%nat. split_and!; [lia|done|by apply starts_with_take|lia].
    + left. split; [done|]. intros k Hk. cbn in Hk.
      replace k with 0%nat by lia. by apply starts_with_false.
  - destruct (starts_with sig (d :: data)) eqn:Hs.
    + right. exists 0%nat. split_and!; [lia|cbn; lia|by apply starts_with_take|lia].
    + apply starts_with_false in Hs.
      destruct (IH (i + 1)) as [[Hr Hno]|(k & Hr & Hk & Hm & Hno)].
      * left. split; [done|]. intros [|k] Hk; [done|].
        apply Hno. cbn in Hk. lia.
      * right. exists (S k). split_and!; [lia|cbn; lia|done|].
        intros [|j] Hj; [done|]. apply Hno. lia.
Qed.

Lemma length_zread img addr n : length (zread img addr n) = n.
Proof. unfold zread. by rewrite length_map, length_seq. Qed.

Lemma zread_window img addr n j k :
  (j + k ≤ n)%nat →
  take k (drop j (zread img addr n)) = zread img (addr + Z.of_nat j) k.
Proof.
  intros Hjk. unfold zread. apply list_eq. intros i.
  destruct (decide (i < k)%nat) as [Hi|Hi].
  - rewrite lookup_take_lt, lookup_drop by done.
    rewrite !list_lookup_fmap, !lookup_seq_lt by lia. cbn.
    do 3 f_equal. lia.
  - rewrite lookup_take_ge by lia.
    symmetry. apply lookup_ge_None. rewrite length_map, length_seq. lia.
Qed.

(** Where the signature is found in the 300-byte window. *)
Lemma window_match img func_addr sig :
  let n := bytes_find (zread img func_addr 300) sig in
  n ≠ -1 →
  0 <= n ∧ n + Z.of_nat (length sig) <= 300
  ∧ zread img (func_addr + n) (length sig) = sig
  ∧ ∀ j, 0 <= j < n → zread img (func_addr + j) (length sig) ≠ sig.
Proof.
  intros n Hn. unfold n, bytes_find in *.
  destruct (find_from_spec (zread img func_addr 300) sig 0)
    as [[Hr _]|(k & Hr & Hk & Hm & Hno)]; [done|].
  rewrite length_zread in Hk. rewrite Hr.
  assert (Hlen : (k + length sig ≤ 300)%nat).
  { apply (f_equal length) in Hm.
    rewrite length_take, length_drop, length_zread in Hm. lia. }
  rewrite zread_window in Hm by done.
  split_and!; [lia|lia|by rewrite Z.add_0_l|].
  intros j Hj. rewrite <- (Z2Nat.id j) by lia.
  rewrite <- zread_window with (n := 300%nat) by lia.
  apply Hno. lia.
Qed.

(** X5. When direct mode returns a location, the export exists, the
    location is the end of the first occurrence of the signature in the
    300 bytes read at the function, it lies inside that window, and the
    image bytes just before it are the signature. *)
Theorem find_list_head_locates_first_match :
  ∀ (img : Image) (nt_mod : LDR_DATA_TABLE_ENTRY) (func : string)
    (sig : list byte) (at_ : Z),
    find_list_head img nt_mod func sig = HeadAddress at_ →
    ∃ func_rva n,
      getprocaddress nt_mod func = Some func_rva
      ∧ at_ = func_rva + DllBase nt_mod + n + Z.of_nat (length sig)
      ∧ 0 <= n ∧ n + Z.of_nat (length sig) <= 300
      ∧ zread img (func_rva + DllBase nt_mod + n) (length sig) = sig
      ∧ ∀ j, 0 <= j < n →
          zread img (func_rva + DllBase nt_mod + j) (length sig) ≠ sig.
Proof.
  intros img nt_mod func sig at_. unfold find_list_head.
  destruct (getprocaddress nt_mod func) as [func_rva|]; [|done].
  destruct (Z.eqb_spec (bytes_find (zread img (func_rva + DllBase nt_mod) 300) sig)
              (-1)) as [|Hn]; [done|].
  intros [= <-]. eexists func_rva, _. split; [done|]. split; [done|].
  by apply window_match.
Qed.

Lemma find_list_head_locates_first_match_witness :
  ∃ func_rva n,
    getprocaddress Sample.module_nt "KeCancelTimer" = Some func_rva
    ∧ 0x110a = func_rva + DllBase Sample.module_nt + n
               + Z.of_nat (length Sample.sig_KeCancelTimer_64)
    ∧ 0 <= n ∧ n + Z.of_nat (length Sample.sig_KeCancelTimer_64) <= 300
    ∧ zread Sample.image_negative_displacement
            (func_rva + DllBase Sample.module_nt + n)
            (length Sample.sig_KeCancelTimer_64) = Sample.sig_KeCancelTimer_64
    ∧ ∀ j, 0 <= j < n →
        zread Sample.image_negative_displacement
              (func_rva + DllBase Sample.module_nt + j)
              (length Sample.sig_KeCancelTimer_64) ≠ Sample.sig_KeCancelTimer_64.
Proof.
  apply (find_list_head_locates_first_match Sample.image_negative_displacement
           Sample.module_nt "KeCancelTimer" Sample.sig_KeCancelTimer_64 0x110a).
  vm_compute. reflexivity.
Defined.

(** X6. The two modes find or miss together, and the pointer-relative
    result is the direct-mode location plus 4 plus the doubleword stored at
    that location read unsigned: it is never below the end of the
    instruction and less than 2^32 above it. *)
Theorem find_list_head_offset_from_direct_location :
  ∀ (img : Image) (nt_mod : LDR_DATA_TABLE_ENTRY) (func : string)
    (sig : list byte),
    match find_list_head img nt_mod func sig with
    | HeadAddress at_ =>
        ∃ target,
          find_list_head_offset img nt_mod func sig = Some target
          ∧ target = unpack_I (zread img at_ 4) + at_ + 4
          ∧ at_ + 4 <= target < at_ + 4 + 2 ^ 32
    | _ => find_list_head_offset img nt_mod func sig = None
    end.
Proof.
  intros img nt_mod func sig. unfold find_list_head, find_list_head_offset.
  destruct (getprocaddress nt_mod func) as [func_rva|]; [|done].
  destruct (Z.eqb_spec (bytes_find (zread img (func_rva + DllBase nt_mod) 300) sig)
              (-1)) as [|Hn]; [done|].
  eexists. split; [done|].
  pose proof (unpack_I_range img
    (func_rva + DllBase nt_mod
     + bytes_find (zread img (func_rva + DllBase nt_mod) 300) sig
     + Z.of_nat (length sig))).
  lia.
Qed.

Lemma map_constant {A B} (f : A → B) (c : B) (l : list A) :
  (∀ x, In x l → f x = c) → map f l = repeat c (length l).
Proof.
  induction l as [|x l IH]; intros H; [done|]. cbn.
  rewrite (H x) by by left. f_equal. apply IH. intros y Hy. apply H. by right.
Qed.

Lemma zread_unreadable img addr n :
  (∀ i, 0 <= i < Z.of_nat n → vm img (addr + i) = None) →
  zread img addr n = repeat x00 n.
Proof.
  intros H. unfold zread.
  rewrite (map_constant _ x00); [by rewrite length_seq|].
  intros i Hi. apply in_seq in Hi. by rewrite H by lia.
Qed.

(** X7. When none of the 300 bytes at the function can be read, the window
    is zero-filled, so a signature with at least one non-zero byte is not
    found: both modes return None instead of a location. *)
Theorem unreadable_prologue_is_not_found :
  ∀ (img : Image) (nt_mod : LDR_DATA_TABLE_ENTRY) (func : string)
    (sig : list byte) (func_rva : Z),
    getprocaddress nt_mod func = Some func_rva →
    (∀ i, 0 <= i < 300 → vm img (func_rva + DllBase nt_mod + i) = None) →
    Exists (λ b, b ≠ x00) sig →
    find_list_head img nt_mod func sig = HeadNone
    ∧ find_list_head_offset img nt_mod func sig = None.
Proof.
  intros img nt_mod func sig func_rva Hf Hvm Hsig.
  assert (Hfind : bytes_find (zread img (func_rva + DllBase nt_mod) 300) sig = -1).
  { unfold bytes_find.
    destruct (find_from_spec (zread img (func_rva + DllBase nt_mod) 300) sig 0)
      as [[Hr _]|(k & _ & Hk & Hm & _)]; [done|].
    rewrite zread_unreadable in Hm by (intros i Hi; apply Hvm; lia).
    assert (Hz : Forall (λ b, b = x00) sig).
    { rewrite <- Hm. apply Forall_take, Forall_drop, List.Forall_forall.
      intros b Hb. by apply repeat_spec in Hb. }
    apply Exists_exists in Hsig as (b & Hb & Hne).
    rewrite Forall_forall in Hz. by specialize (Hz b Hb). }
  unfold find_list_head, find_list_head_offset. by rewrite Hf, Hfind.
Qed.

Lemma unreadable_prologue_is_not_found_witness :
  find_list_head Sample.win8_x64 Sample.module_nt "KeCancelTimer"
                 Sample.sig_KeCancelTimer_64 = HeadNone
  ∧ find_list_head_offset Sample.win8_x64 Sample.module_nt "KeCancelTimer"
                          Sample.sig_KeCancelTimer_64 = None.
Proof.
  apply (unreadable_prologue_is_not_found Sample.win8_x64 Sample.module_nt
           "KeCancelTimer" Sample.sig_KeCancelTimer_64 0x100).
  - reflexivity.
  - intros i Hi. reflexivity.
  - apply Exists_cons_hd. discriminate.
Defined.

(** ** The candidate loop of branch B *)

Lemma last_nonempty_default {A} (x : A) (l : list A) (d d' : A) :
  List.last (x :: l) d = List.last (x :: l) d'.
Proof.
  revert x. induction l as [|y l IH]; intros x; [done|].
  change (List.last (y :: l) d = List.last (y :: l) d'). apply IH.
Qed.

Lemma try_sigs_resolve img nt_mod sigs last :
  try_sigs img nt_mod sigs last
  = match List.find (head_truth img) (map (resolve img nt_mod) sigs) with
    | Some h => h
    | None => List.last (map (resolve img nt_mod) sigs) last
    end.
Proof.
  revert last. induction sigs as [|[[relative func] sig] rest IH]; intros last;
    [done|].
  cbn [try_sigs map List.find].
  change (if relative
          then of_offset (find_list_head_offset img nt_mod func sig)
          else find_list_head img nt_mod func sig)
    with (resolve img nt_mod (relative, func, sig)).
  destruct (head_truth img (resolve img nt_mod (relative, func, sig))); [done|].
  rewrite IH. destruct (List.find _ _); [done|].
  destruct rest as [|c rest]; [done|]. cbn [map].
  by rewrite (last_nonempty_default _ _ _ last).
Qed.

(** X8. The loop over the signature list is first-match: its result is
    what the first entry resolving to a truthy value resolves to, later
    entries being ignored; when no entry does, it is what the last entry
    resolved to (a falsy value), and the loop result is truthy exactly when
    some entry resolves to a truthy value. *)
Theorem try_sigs_first_match :
  ∀ (img : Image) (nt_mod : LDR_DATA_TABLE_ENTRY)
    (sigs : list (bool * string * list byte)),
    let results := map (resolve img nt_mod) sigs in
    try_sigs img nt_mod sigs HeadNone
    = match List.find (head_truth img) results with
      | Some h => h
      | None => List.last results HeadNone
      end
    ∧ head_truth img (try_sigs img nt_mod sigs HeadNone)
      = existsb (head_truth img) results
    ∧ (∀ before c after,
         sigs = before ++ c :: after →
         Forall (λ b, head_truth img (resolve img nt_mod b) = false) before →
         head_truth img (resolve img nt_mod c) = true →
         try_sigs img nt_mod sigs HeadNone = resolve img nt_mod c).
Proof.
  intros img nt_mod sigs results. split_and!.
  - apply try_sigs_resolve.
  - rewrite try_sigs_resolve. fold results.
    induction results as [|h rest IH]; [done|].
    cbn [List.find existsb]. destruct (head_truth img h) eqn:Hh; [done|].
    cbn [orb]. destruct (List.find (head_truth img) rest) eqn:Hf; [done|].
    rewrite <- IH. by destruct rest as [|h' rest'].
  - clear results. intros before c after -> Hbefore Hc. rewrite try_sigs_resolve.
    assert (Hfind : List.find (head_truth img)
                      (map (resolve img nt_mod) (before ++ c :: after))
                    = Some (resolve img nt_mod c)).
    { induction Hbefore as [|b before Hb _ IH]; cbn [app map List.find].
      - by rewrite Hc.
      - by rewrite Hb. }
    by rewrite Hfind.
Qed.

(* ===================================================================== *)
(** ** Errors and warnings of [calculate] *)
(* ===================================================================== *)

Lemma collect_timers_raises cfg img :
  resolves_table cfg img → modlist img = [] →
  collect_timers cfg img = Raised "IndexError".
Proof.
  intros [Hcfg Hb] Hm. unfold collect_timers, branch_A, branch_B.
  by destruct Hb as [-> | ->]; rewrite Hcfg, Hm.
Qed.

Lemma table_walk_result img (h : TableHead) (walk : list KTIMER) :
  ∃ ws timers,
    (if negb (head_truth img h)
     then Returned ([warning], []) else Returned ([], walk))
    = Returned (ws, timers)
    ∧ (ws = [] ∨ (ws = [warning] ∧ timers = [])).
Proof. destruct (head_truth img h); cbn [negb]; eauto 10. Qed.

Lemma collect_timers_returns cfg img :
  ¬ (resolves_table cfg img ∧ modlist img = []) →
  ∃ ws timers,
    collect_timers cfg img = Returned (ws, timers)
    ∧ (ws = [] ∨ (ws = [warning] ∧ timers = [])).
Proof.
  intros Hno. unfold collect_timers, branch_A, branch_B, branch_C.
  destruct (select_branch _ _ _ _) as [[| |]|] eqn:Hsel; [| |eauto|eauto].
  - destruct (config_head cfg) as [v|] eqn:Hcfg; [apply table_walk_result|].
    destruct (modlist img) as [|nt_mod rest] eqn:Hm; [|apply table_walk_result].
    exfalso. apply Hno. unfold resolves_table. rewrite Hsel. naive_solver.
  - destruct (config_head cfg) as [v|] eqn:Hcfg; [apply table_walk_result|].
    destruct (modlist img) as [|nt_mod rest] eqn:Hm; [|apply table_walk_result].
    exfalso. apply Hno. unfold resolves_table. rewrite Hsel. naive_solver.
Qed.

Lemma collect_timers_warning cfg img ws timers :
  collect_timers cfg img = Returned (ws, timers) →
  ws = [] ∨ (ws = [warning] ∧ timers = []).
Proof.
  unfold collect_timers, branch_A, branch_B, branch_C.
  destruct (select_branch _ _ _ _) as [[| |]|];
    destruct (config_head cfg); destruct (modlist img);
    repeat match goal with
           | |- context [negb ?b] => destruct b; cbn [negb]
           end;
    intros [= <- <-]; eauto.
Qed.

(** X9. [calculate] raises in exactly one situation: a table branch (A or
    B) is selected, no non-zero ListHead is configured and the module list
    is empty, where [modlist[0]] raises IndexError before anything is
    yielded or scanned.  In every other situation it returns. *)
Theorem calculate_raises_only_for_an_empty_module_list :
  ∀ (cfg : Config) (img : Image) (σ : State),
    (resolves_table cfg img ∧ modlist img = [] →
     calculate cfg img σ = (Raised "IndexError", σ))
    ∧ (¬ (resolves_table cfg img ∧ modlist img = []) →
       ∃ ws pairs σ', calculate cfg img σ = (Returned (ws, pairs), σ')).
Proof.
  intros cfg img σ. split.
  - intros [Hr Hm]. unfold calculate. by rewrite collect_timers_raises.
  - intros Hno.
    destruct (collect_timers_returns cfg img Hno) as (ws & timers & Hc & _).
    destruct (calculate_loop_returns img (mods_of img) (mod_addrs_of (mods_of img))
                timers σ) as (pairs & σ' & Hrun & _).
    exists ws, pairs, σ'. unfold calculate. rewrite Hc. unfold bind.
    by rewrite Hrun.
Qed.

(** X10. When [calculate] returns it has emitted at most one warning, the
    text "Cannot find KiTimerTableListHead", and in that case it has yielded
    no record and has not touched the state. *)
Theorem calculate_warns_and_yields_nothing :
  ∀ (cfg : Config) (img : Image) (σ : State) (ws : list string)
    (pairs : list (KTIMER * option LDR_DATA_TABLE_ENTRY)) (σ' : State),
    calculate cfg img σ = (Returned (ws, pairs), σ') →
    ws = []
    ∨ (ws = ["Cannot find KiTimerTableListHead"] ∧ pairs = [] ∧ σ' = σ).
Proof.
  intros cfg img σ ws pairs σ' Hcalc. unfold calculate in Hcalc.
  destruct (collect_timers cfg img) as [[ws' timers]|e] eqn:Hc; [|done].
  apply collect_timers_warning in Hc as Hws. unfold bind in Hcalc.
  destruct Hws as [->|[-> ->]].
  - destruct (calculate_loop _ _ _ _ _) as [[out|e] σ1]; [|done].
    left. by injection Hcalc as <- _ _.
  - right. cbn in Hcalc. by injection Hcalc as <- <- <-.
Qed.

Lemma calculate_warns_and_yields_nothing_witness :
  [warning] = []
  ∨ ([warning] = ["Cannot find KiTimerTableListHead"]
     ∧ @nil (KTIMER * option LDR_DATA_TABLE_ENTRY) = [] ∧ Sample.fresh = Sample.fresh).
Proof.
  apply (calculate_warns_and_yields_nothing Sample.no_config Cases.winxp_no_export
           Sample.fresh [warning] [] Sample.fresh).
  vm_compute. reflexivity.
Defined.

(* ===================================================================== *)
(** ** The ListHead option *)
(* ===================================================================== *)

Lemma sizeof_KTIMER_TABLE_ENTRY_same img img' :
  memory_model img = memory_model img' →
  sizeof_KTIMER_TABLE_ENTRY img = sizeof_KTIMER_TABLE_ENTRY img'.
Proof. intros H. unfold sizeof_KTIMER_TABLE_ENTRY. by rewrite H. Qed.

(** X11. A non-zero ListHead on a table branch bypasses the resolver: the
    timers are read from the array at that address (256 list heads on
    branch A, 512 table entries on branch B) with no warning and no error,
    and the result is the same for any two images with the same profile and
    the same lists, whatever their bytes, modules and exports.  A ListHead
    of 0 behaves as if the option had not been given. *)
Theorem configured_list_head_bypasses_the_resolver :
  ∀ (img img' : Image) (v : Z),
    v ≠ 0 → same_tables img img' →
    select_branch (major img) (minor img) (build img) (memory_model img)
    ≠ Some BranchC →
    (∃ timers, collect_timers (mkConfig (Some v)) img = Returned ([], timers)
               ∧ collect_timers (mkConfig (Some v)) img' = Returned ([], timers)
               ∧ (select_branch (major img) (minor img) (build img)
                                (memory_model img) = Some BranchA →
                  timers = flat_map (list_of_type img)
                             (array_offsets v (sizeof_LIST_ENTRY img) 256))
               ∧ (select_branch (major img) (minor img) (build img)
                                (memory_model img) = Some BranchB →
                  timers = flat_map (λ l, list_of_type img (l + 0))
                             (array_offsets v (sizeof_KTIMER_TABLE_ENTRY img) 512)))
    ∧ collect_timers (mkConfig (Some 0)) img = collect_timers (mkConfig None) img.
Proof.
  intros img img' v Hv (HM & Hm & Hb & Hmm & Hsz & Hlist) HnotC.
  split; [|reflexivity].
  unfold collect_timers, branch_A, branch_B.
  rewrite <- HM, <- Hm, <- Hb, <- Hmm.
  destruct (select_branch _ _ _ _) as [[| |]|]; [| |done|by exists []].
  all: unfold config_head; cbn [LISTHEAD];
    destruct (Z.eqb_spec v 0) as [|_]; [done|];
    cbn [head_truth head_offset]; destruct (Z.eqb_spec v 0) as [|_]; [done|];
    cbn [negb]; eexists; split_and!; try reflexivity; try done.
  - by rewrite <- Hsz, <- Hlist.
  - by rewrite <- Hlist, (sizeof_KTIMER_TABLE_ENTRY_same img img').
Qed.

Lemma configured_list_head_bypasses_the_resolver_witness :
  (∃ timers,
     collect_timers (mkConfig (Some 0x5000)) Cases.winxp_no_modules
     = Returned ([], timers)
     ∧ collect_timers (mkConfig (Some 0x5000)) Cases.winxp_no_export
       = Returned ([], timers)
     ∧ (select_branch (major Cases.winxp_no_modules) (minor Cases.winxp_no_modules)
                      (build Cases.winxp_no_modules)
                      (memory_model Cases.winxp_no_modules) = Some BranchA →
        timers = flat_map (list_of_type Cases.winxp_no_modules)
                   (array_offsets 0x5000 (sizeof_LIST_ENTRY Cases.winxp_no_modules) 256))
     ∧ (select_branch (major Cases.winxp_no_modules) (minor Cases.winxp_no_modules)
                      (build Cases.winxp_no_modules)
                      (memory_model Cases.winxp_no_modules) = Some BranchB →
        timers = flat_map (λ l, list_of_type Cases.winxp_no_modules (l + 0))
                   (array_offsets 0x5000
                      (sizeof_KTIMER_TABLE_ENTRY Cases.winxp_no_modules) 512)))
  ∧ collect_timers (mkConfig (Some 0)) Cases.winxp_no_modules
    = collect_timers (mkConfig None) Cases.winxp_no_modules.
Proof.
  apply (configured_list_head_bypasses_the_resolver Cases.winxp_no_modules
           Cases.winxp_no_export 0x5000).
  - lia.
  - unfold same_tables. split_and!; reflexivity.
  - vm_compute. congruence.
Defined.

(* ===================================================================== *)
(** ** The module index *)
(* ===================================================================== *)

Lemma find_snoc {A} (f : A → bool) (l : list A) (x : A) :
  List.find f (l ++ [x])
  = match List.find f l with
    | Some y => Some y
    | None => if f x then Some x else None
    end.
Proof.
  induction l as [|y l IH]; cbn [app List.find]; [done|].
  by destruct (f y).
Qed.

Lemma foldl_insert_lookup img (l : list LDR_DATA_TABLE_ENTRY)
    (m0 : gmap Z LDR_DATA_TABLE_ENTRY) (key : Z) :
  foldl (λ m entry, <[address_mask img (DllBase entry) := entry]> m) m0 l !! key
  = match List.find (λ e, address_mask img (DllBase e) =? key) (rev l) with
    | Some e => Some e
    | None => m0 !! key
    end.
Proof.
  revert m0. induction l as [|e l IH]; intros m0; [done|].
  cbn [foldl rev]. rewrite IH, find_snoc.
  destruct (List.find _ (rev l)); [done|].
  destruct (Z.eqb_spec (address_mask img (DllBase e)) key) as [<-|Hne].
  - by rewrite lookup_insert_eq.
  - by rewrite lookup_insert_ne.
Qed.

(** X12. The module index built by [calculate]: a masked base address maps
    to the last module of the list that has it, so of two modules with the
    same masked base the later one is kept; and the address list is sorted,
    without repetition, and holds exactly the masked bases of the modules of
    the list. *)
Theorem module_index_keeps_the_last_and_is_sorted :
  ∀ (img : Image) (key : Z),
    mods_of img !! key
    = List.find (λ e, address_mask img (DllBase e) =? key) (rev (modlist img))
    ∧ Sorted Z.le (mod_addrs_of (mods_of img))
    ∧ NoDup (mod_addrs_of (mods_of img))
    ∧ (In key (mod_addrs_of (mods_of img))
       ↔ ∃ entry, In entry (modlist img)
                  ∧ address_mask img (DllBase entry) = key).
Proof.
  intros img key.
  assert (Hlook : mods_of img !! key
     = List.find (λ e, address_mask img (DllBase e) =? key) (rev (modlist img))).
  { unfold mods_of. rewrite foldl_insert_lookup.
    by destruct (List.find _ _). }
  assert (Hperm : mod_addrs_of (mods_of img) ≡ₚ (map_to_list (mods_of img)).*1).
  { apply merge_sort_Permutation. }
  split_and!.
  - done.
  - apply Sorted_merge_sort. intros x y. lia.
  - rewrite Hperm. apply NoDup_fst_map_to_list.
  - rewrite <- list_elem_of_In, Hperm, list_elem_of_fmap. split.
    + intros ([k entry] & Hk & Hin). cbn [fst] in Hk. subst k.
      apply elem_of_map_to_list in Hin. rewrite Hlook in Hin. apply find_some in Hin as [Hin Hk].
      exists entry. split; [by apply in_rev|]. by apply Z.eqb_eq.
    + intros (entry & Hin & Hk).
      destruct (mods_of img !! key) as [e|] eqn:He.
      * exists (key, e). split; [done|]. by apply elem_of_map_to_list.
      * symmetry in Hlook. apply in_rev in Hin.
        eapply find_none in Hlook; [|exact Hin]. cbn in Hlook. lia.
Qed.

(* ===================================================================== *)
(** ** From the collected timers to the printed rows *)
(* ===================================================================== *)

Lemma Dpc_value_eq img t σ :
  Dpc img t σ = (Returned (dpc_value img t σ), (Dpc img t σ).2).
Proof.
  unfold dpc_value. by destruct (Dpc_returns img t σ) as (d & σ' & ->).
Qed.

Lemma Dpc_scans img t σ :
  (scans σ ≤ scans (Dpc img t σ).2 ≤ S (scans σ))%nat.
Proof.
  destruct (Dpc_state img t σ) as [->|(p & _ & _ & _ & Hst)]; [lia|].
  destruct (kdbg_scan img) as [[n a]|]; rewrite Hst; cbn; lia.
Qed.

Section Values.
Context (img : Image) (mods : gmap Z LDR_DATA_TABLE_ENTRY) (mod_addrs : list Z).
Context (σ0 : State).

Lemma calculate_loop_values timers σ :
  reached img σ0 σ →
  ∃ σ',
    calculate_loop img mods mod_addrs timers σ
    = (Returned
         (map (λ t, (t, find_module mods mod_addrs
                          (address_mask img
                             <$> DeferredRoutine img (dpc_value img t σ0))))
              (List.filter keeps timers)), σ')
    ∧ reached img σ0 σ'
    ∧ (scans σ ≤ scans σ' ≤ scans σ + length (List.filter keeps timers))%nat
    ∧ (memory_model img = Some "32bit" → σ' = σ).
Proof.
  revert σ. induction timers as [|t rest IH]; intros σ HR.
  - exists σ. cbn. split; [|split; [|split]]; try done; lia.
  - rewrite calculate_loop_cons. cbn [List.filter]. destruct (keeps t).
    + rewrite Dpc_value_eq.
      destruct (IH (Dpc img t σ).2 (reached_step img σ0 σ t HR))
        as (σ' & -> & HR' & Hsc & H32).
      exists σ'. pose proof (Dpc_scans img t σ).
      split; [|split; [|split]].
      * cbn [map]. do 5 f_equal.
        unfold dpc_value. by rewrite (Dpc_value_reached img t σ0 σ).
      * done.
      * cbn [length]. lia.
      * intros Hmm. rewrite (H32 Hmm). by rewrite Dpc_32bit.
    + apply IH, HR.
Qed.

Lemma generator_values data σ :
  reached img σ0 σ →
  ∃ σ',
    generator img data σ
    = (Returned
         (map (λ p,
               mkRow (obj_offset (timer_obj p.1))
                     (format_hash_010x (DueTime_HighPart p.1) +:+ ":" +:+
                      format_hash_010x (DueTime_LowPart p.1))
                     (Period p.1)
                     (if negb (Header_SignalState p.1 =? 0) then "Yes" else "-")
                     (DeferredRoutine img (dpc_value img p.1 σ0))
                     (match p.2 with
                      | Some m => default EmptyString (BaseDllName m)
                      | None => "UNKNOWN"
                      end)) data), σ')
    ∧ reached img σ0 σ'
    ∧ (scans σ ≤ scans σ' ≤ scans σ + length data)%nat.
Proof.
  revert σ. induction data as [|[t m] rest IH]; intros σ HR.
  - exists σ. cbn. split; [|split]; try done; lia.
  - rewrite generator_cons, Dpc_value_eq.
    destruct (IH (Dpc img t σ).2 (reached_step img σ0 σ t HR))
      as (σ' & -> & HR' & Hsc).
    exists σ'. pose proof (Dpc_scans img t σ).
    split; [|split]; [|done|cbn [length]; lia].
    cbn [map fst snd]. do 4 f_equal.
    unfold dpc_value. by rewrite (Dpc_value_reached img t σ0 σ).
Qed.

End Values.

(** X13. [calculate] runs the debugger-block scan at most once per record
    it yields (never for a record dropped by the type check), never lowers
    the scan count, and on a 32-bit image leaves the state exactly as it
    found it. *)
Theorem calculate_scan_budget :
  ∀ (cfg : Config) (img : Image) (σ : State) (ws : list string)
    (pairs : list (KTIMER * option LDR_DATA_TABLE_ENTRY)) (σ' : State),
    calculate cfg img σ = (Returned (ws, pairs), σ') →
    (scans σ ≤ scans σ' ≤ scans σ + length pairs)%nat
    ∧ (memory_model img = Some "32bit" → σ' = σ).
Proof.
  intros cfg img σ ws pairs σ' Hcalc. unfold calculate in Hcalc.
  destruct (collect_timers cfg img) as [[ws' timers]|e]; [|done].
  destruct (calculate_loop_values img (mods_of img) (mod_addrs_of (mods_of img))
              σ timers σ (reached_refl img σ)) as (σ1 & Hrun & _ & Hsc & H32).
  unfold bind in Hcalc. rewrite Hrun in Hcalc. injection Hcalc as <- <- <-.
  by rewrite length_map.
Qed.

Lemma calculate_scan_budget_witness :
  (scans Sample.fresh ≤ scans (mkState ∅ 2)
   ≤ scans Sample.fresh
     + length [(Sample.timer_a, @None LDR_DATA_TABLE_ENTRY); (Sample.timer_b, None)])%nat
  ∧ (memory_model Sample.win8_x64_no_kdbg = Some "32bit" →
     mkState ∅ 2 = Sample.fresh).
Proof.
  apply (calculate_scan_budget Sample.no_config Sample.win8_x64_no_kdbg
           Sample.fresh [] [(Sample.timer_a, None); (Sample.timer_b, None)]
           (mkState ∅ 2)).
  vm_compute. reflexivity.
Defined.

(** X14. Printing what [calculate] yields: the rows are those of the
    collected timers of valid type, in table order; each row shows the
    routine of the callback as decoded in the initial state, and the module
    paired with the record is the one looked up for the routine shown on
    its row, although the callback is decoded once by [calculate] and once
    more by the presenter. *)
Theorem rows_follow_the_collected_timers :
  ∀ (cfg : Config) (img : Image) (σ : State) (ws : list string)
    (timers : list KTIMER),
    collect_timers cfg img = Returned (ws, timers) →
    ∃ pairs σ1 rows σ2,
      calculate cfg img σ = (Returned (ws, pairs), σ1)
      ∧ generator img pairs σ1 = (Returned rows, σ2)
      ∧ map row_offset rows
        = map (λ t, obj_offset (timer_obj t)) (List.filter keeps timers)
      ∧ Forall2 (λ p row,
           row_routine row = DeferredRoutine img (dpc_value img p.1 σ)
           ∧ p.2 = find_module (mods_of img) (mod_addrs_of (mods_of img))
                     (address_mask img <$> row_routine row))
          pairs rows.
Proof.
  intros cfg img σ ws timers Hc.
  destruct (calculate_loop_values img (mods_of img) (mod_addrs_of (mods_of img))
              σ timers σ (reached_refl img σ)) as (σ1 & Hrun & HR & _).
  set (pairs := map (λ t, (t, find_module (mods_of img) (mod_addrs_of (mods_of img))
                                (address_mask img
                                   <$> DeferredRoutine img (dpc_value img t σ))))
                    (List.filter keeps timers)) in *.
  destruct (generator_values img σ pairs σ1 HR) as (σ2 & Hgen & _).
  eexists pairs, σ1, _, σ2. split_and!.
  - unfold calculate. rewrite Hc. unfold bind. by rewrite Hrun.
  - exact Hgen.
  - unfold pairs. rewrite !map_map. done.
  - apply Forall2_fmap_r, Forall_Forall2_diag, Forall_forall.
    intros p Hp. split; [done|]. cbn [row_routine].
    unfold pairs in Hp. apply list_elem_of_fmap in Hp as (t & -> & _). done.
Qed.

Lemma rows_follow_the_collected_timers_witness :
  ∃ pairs σ1 rows σ2,
    calculate Sample.no_config Sample.win8_x64 Sample.fresh
    = (Returned ([], pairs), σ1)
    ∧ generator Sample.win8_x64 pairs σ1 = (Returned rows, σ2)
    ∧ map row_offset rows
      = map (λ t, obj_offset (timer_obj t))
            (List.filter keeps [Sample.timer_a; Sample.timer_b])
    ∧ Forall2 (λ p row,
         row_routine row
         = DeferredRoutine Sample.win8_x64 (dpc_value Sample.win8_x64 p.1 Sample.fresh)
         ∧ p.2 = find_module (mods_of Sample.win8_x64)
                   (mod_addrs_of (mods_of Sample.win8_x64))
                   (address_mask Sample.win8_x64 <$> row_routine row))
        pairs rows.
Proof.
  apply (rows_follow_the_collected_timers Sample.no_config Sample.win8_x64
           Sample.fresh [] [Sample.timer_a; Sample.timer_b]).
  reflexivity.
Defined.

(* ===================================================================== *)
(** ** The profile modification *)
(* ===================================================================== *)

Lemma update_lookup_new {V} (d new : gmap string V) k v :
  new !! k = Some v → update d new !! k = Some v.
Proof. intros H. unfold update. by apply lookup_union_Some_l. Qed.

Lemma update_lookup_old {V} (d new : gmap string V) k :
  new !! k = None → update d new !! k = d !! k.
Proof. intros H. unfold update. by rewrite lookup_union_r. Qed.

Lemma update_update {V} (d new : gmap string V) :
  update (update d new) new = update d new.
Proof. unfold update. by rewrite (assoc_L (∪)), (idemp_L (∪)). Qed.

(** X15. The modification always installs this file's class for [_KTIMER]
    and touches no other class, never changes the metadata, and leaves every
    vtype other than [_KTIMER_TABLE_ENTRY] alone.  That vtype is replaced
    (whatever the profile had) by the 0x10-byte layout when the version is
    below (6,1) and the memory model is 32bit or absent, by the 0x18-byte
    layout when the version is below (6,1) and the memory model is anything
    else, and is left as the profile has it from (6,1) on.  Applying the
    modification twice is the same as applying it once. *)
Theorem modification_installs_the_timer_types :
  ∀ (p : Profile) (name : string),
    metadata (modification p) = metadata p
    ∧ object_classes (modification p) !! "_KTIMER" = Some KTIMER_class
    ∧ (name ≠ "_KTIMER" →
       object_classes (modification p) !! name = object_classes p !! name)
    ∧ (name ≠ "_KTIMER_TABLE_ENTRY" →
       vtypes (modification p) !! name = vtypes p !! name)
    ∧ vtypes (modification p) !! "_KTIMER_TABLE_ENTRY"
      = (if version_lt (default 0 (meta_major (metadata p)),
                        default 0 (meta_minor (metadata p))) (6, 1)
         then if String.eqb (default "32bit" (meta_memory_model (metadata p)))
                            "32bit"
              then timer_types_32 !! "_KTIMER_TABLE_ENTRY"
              else timer_types_64 !! "_KTIMER_TABLE_ENTRY"
         else vtypes p !! "_KTIMER_TABLE_ENTRY")
    ∧ modification (modification p) = modification p.
Proof.
  intros p name. unfold modification. cbn [metadata vtypes object_classes].
  split_and!.
  - done.
  - by apply update_lookup_new.
  - intros Hn. apply update_lookup_old. by apply lookup_singleton_ne.
  - intros Hn.
    destruct (version_lt _ _); [|done].
    destruct (String.eqb _ _); apply update_lookup_old;
      by apply lookup_singleton_ne.
  - destruct (version_lt _ _); [|done].
    by destruct (String.eqb _ _); apply update_lookup_new.
  - rewrite update_update.
    destruct (version_lt _ _); [|done].
    by destruct (String.eqb _ _); rewrite update_update.
Qed.

Lemma version_lt_of_branch_B major minor build bits :
  select_branch major minor build bits = Some BranchB →
  version_lt (major, minor) (6, 1) = true.
Proof.
  unfold select_branch, version_eq, version_ge, version_lt. cbn [fst snd].
  destruct (Z.eqb_spec major 5), (Z.eqb_spec minor 1), (Z.eqb_spec minor 2),
    (Z.eqb_spec build 3789), (Z.eqb_spec major 6), (Z.eqb_spec minor 0),
    (Z.ltb_spec 6 major), (Z.leb_spec 1 minor),
    (Z.ltb_spec major 6), (Z.ltb_spec minor 1); cbn; try done; lia.
Qed.

Lemma version_lt_of_branch_C major minor build bits :
  select_branch major minor build bits = Some BranchC →
  version_lt (major, minor) (6, 1) = false.
Proof.
  unfold select_branch, version_eq, version_ge, version_lt. cbn [fst snd].
  destruct (Z.eqb_spec major 5), (Z.eqb_spec minor 1), (Z.eqb_spec minor 2),
    (Z.eqb_spec build 3789), (Z.eqb_spec major 6), (Z.eqb_spec minor 0),
    (Z.ltb_spec 6 major), (Z.leb_spec 1 minor),
    (Z.ltb_spec major 6), (Z.ltb_spec minor 1); cbn; try done; lia.
Qed.

Lemma version_lt_of_branch_A major minor build bits :
  select_branch major minor build bits = Some BranchA →
  version_lt (major, minor) (6, 1) = true.
Proof.
  unfold select_branch, version_eq, version_ge, version_lt. cbn [fst snd].
  destruct (Z.eqb_spec major 5), (Z.eqb_spec minor 1), (Z.eqb_spec minor 2),
    (Z.eqb_spec build 3789), (Z.eqb_spec major 6), (Z.eqb_spec minor 0),
    (Z.ltb_spec 6 major), (Z.leb_spec 1 minor),
    (Z.ltb_spec major 6), (Z.ltb_spec minor 1); cbn; try done; lia.
Qed.

(** X16. The version test of the modification and the version chain of
    [calculate] fit together.  For a profile carrying the image's metadata:
    whenever [calculate] selects a table branch (A or B) the version is below
    (6,1), so the modification has put one of this file's two
    [_KTIMER_TABLE_ENTRY] layouts into the profile, whatever the profile had
    under that name, and its member [Entry] is a [_LIST_ENTRY] at offset 0;
    whenever [calculate] selects branch C the modification has left the
    profile's vtypes as they were. *)
Theorem table_branches_have_the_entry_type :
  ∀ (img : Image) (p : Profile),
    metadata p = metadata_of img →
    (select_branch (major img) (minor img) (build img) (memory_model img)
     = Some BranchA
     ∨ select_branch (major img) (minor img) (build img) (memory_model img)
       = Some BranchB →
     ∃ t, vtypes (modification p) !! "_KTIMER_TABLE_ENTRY" = Some t
          ∧ (timer_types_32 !! "_KTIMER_TABLE_ENTRY" = Some t
             ∨ timer_types_64 !! "_KTIMER_TABLE_ENTRY" = Some t)
          ∧ vmembers t !! "Entry" = Some (0, ["_LIST_ENTRY"]))
    ∧ (select_branch (major img) (minor img) (build img) (memory_model img)
       = Some BranchC →
       vtypes (modification p) = vtypes p).
Proof.
  intros img p Hmd. unfold modification. rewrite Hmd.
  cbn [metadata_of meta_major meta_minor meta_memory_model vtypes default
       from_option id].
  split; intros Hsel.
  - assert (Hlt : version_lt (major img, minor img) (6, 1) = true).
    { destruct Hsel as [Hsel|Hsel];
        [by apply version_lt_of_branch_A in Hsel
        |by apply version_lt_of_branch_B in Hsel]. }
    rewrite Hlt.
    destruct (String.eqb _ _); eexists;
      (split; [by apply update_lookup_new|split; [|done]]); [by left|by right].
  - by rewrite (version_lt_of_branch_C _ _ _ _ Hsel).
Qed.

Lemma table_branches_have_the_entry_type_witness :
  (select_branch (major Sample.image_negative_displacement)
                 (minor Sample.image_negative_displacement)
                 (build Sample.image_negative_displacement)
                 (memory_model Sample.image_negative_displacement)
   = Some BranchA
   ∨ select_branch (major Sample.image_negative_displacement)
                   (minor Sample.image_negative_displacement)
                   (build Sample.image_negative_displacement)
                   (memory_model Sample.image_negative_displacement)
     = Some BranchB →
   ∃ t, vtypes (modification
                  (mkProfile (metadata_of Sample.image_negative_displacement)
                             timer_types_32 ∅))
        !! "_KTIMER_TABLE_ENTRY" = Some t
        ∧ (timer_types_32 !! "_KTIMER_TABLE_ENTRY" = Some t
           ∨ timer_types_64 !! "_KTIMER_TABLE_ENTRY" = Some t)
        ∧ vmembers t !! "Entry" = Some (0, ["_LIST_ENTRY"]))
  ∧ (select_branch (major Sample.image_negative_displacement)
                   (minor Sample.image_negative_displacement)
                   (build Sample.image_negative_displacement)
                   (memory_model Sample.image_negative_displacement)
     = Some BranchC →
     vtypes (modification
               (mkProfile (metadata_of Sample.image_negative_displacement)
                          timer_types_32 ∅))
     = vtypes (mkProfile (metadata_of Sample.image_negative_displacement)
                         timer_types_32 ∅)).
Proof.
  apply (table_branches_have_the_entry_type Sample.image_negative_displacement
           (mkProfile (metadata_of Sample.image_negative_displacement)
                      timer_types_32 ∅)).
  reflexivity.
Defined.

(* ===================================================================== *)
(** ** A profile without a memory model *)
(* ===================================================================== *)

Lemma Dpc_not_member_unless_32bit img self σ :
  memory_model img ≠ Some "32bit" →
  ∀ pointer, (Dpc img self σ).1 ≠ Returned (Member pointer).
Proof.
  intros H pointer.
  destruct (kdbg_parent self) as [p|] eqn:Hp.
  2: { by rewrite Dpc_no_parent. }
  destruct (has_secrets (attrs σ) p) eqn:Hs.
  - apply has_secrets_true in Hs as (n & a & Hn & Ha).
    by erewrite Dpc_cached.
  - destruct (kdbg_scan img) as [[n a]|] eqn:Hk.
    + by erewrite Dpc_scan_found.
    + by erewrite Dpc_scan_missing.
Qed.

(** X17. The three places that read the memory model treat a missing key
    differently.  When the profile has no memory model, the table entry is
    sized as on 32-bit (0x10 bytes), but the signature list is the 64-bit
    one (both entries pointer-relative) and the callback property takes the
    64-bit path: it never returns the stored member, only a [NoneObject] or
    a decoded [_KDPC]. *)
Theorem missing_memory_model_is_read_three_ways :
  ∀ (img : Image) (self : KTIMER) (σ : State),
    memory_model img = None →
    sizeof_KTIMER_TABLE_ENTRY img = 0x10
    ∧ map (λ c, c.1.1) (sigData img) = [true; true]
    ∧ (∀ pointer, (Dpc img self σ).1 ≠ Returned (Member pointer))
    ∧ ((∃ reason, (Dpc img self σ).1 = Returned (NoneObject reason))
       ∨ (∃ offset, (Dpc img self σ).1 = Returned (KDPC offset))).
Proof.
  intros img self σ Hmm.
  assert (H32 : memory_model img ≠ Some "32bit") by by rewrite Hmm.
  split_and!.
  - unfold sizeof_KTIMER_TABLE_ENTRY. by rewrite Hmm.
  - unfold sigData. by rewrite bool_decide_false.
  - by apply Dpc_not_member_unless_32bit.
  - destruct (Dpc_returns img self σ) as (d & σ' & Hd).
    pose proof (Dpc_not_member_unless_32bit img self σ H32) as Hnm.
    rewrite Hd in *. cbn [fst] in *. destruct d as [ptr|reason|offset]; eauto.
    by specialize (Hnm ptr).
Qed.

Lemma missing_memory_model_is_read_three_ways_witness :
  sizeof_KTIMER_TABLE_ENTRY
    (mkImage 6 0 6002 None (λ _, None) (λ a, a) None [] (λ _, true) (λ a, a)
             16 (λ _, []) [] (λ _, None)) = 0x10
  ∧ map (λ c, c.1.1)
        (sigData (mkImage 6 0 6002 None (λ _, None) (λ a, a) None []
                          (λ _, true) (λ a, a) 16 (λ _, []) [] (λ _, None)))
    = [true; true]
  ∧ (∀ pointer,
       (Dpc (mkImage 6 0 6002 None (λ _, None) (λ a, a) None [] (λ _, true)
                     (λ a, a) 16 (λ _, []) [] (λ _, None))
            Sample.timer_orphan Sample.fresh).1 ≠ Returned (Member pointer))
  ∧ ((∃ reason,
        (Dpc (mkImage 6 0 6002 None (λ _, None) (λ a, a) None [] (λ _, true)
                      (λ a, a) 16 (λ _, []) [] (λ _, None))
             Sample.timer_orphan Sample.fresh).1 = Returned (NoneObject reason))
     ∨ (∃ offset,
          (Dpc (mkImage 6 0 6002 None (λ _, None) (λ a, a) None [] (λ _, true)
                        (λ a, a) 16 (λ _, []) [] (λ _, None))
               Sample.timer_orphan Sample.fresh).1 = Returned (KDPC offset))).
Proof.
  apply (missing_memory_model_is_read_three_ways
           (mkImage 6 0 6002 None (λ _, None) (λ a, a) None [] (λ _, true)
                    (λ a, a) 16 (λ _, []) [] (λ _, None))
           Sample.timer_orphan Sample.fresh).
  reflexivity.
Defined.

(* ===================================================================== *)
(** ** The due-time text *)
(* ===================================================================== *)

Lemma digit_value_hex_digit d : 0 <= d < 16 → digit_value (hex_digit d) = d.
Proof.
  intros Hd.
  assert (d = 0 ∨ d = 1 ∨ d = 2 ∨ d = 3 ∨ d = 4 ∨ d = 5 ∨ d = 6 ∨ d = 7
          ∨ d = 8 ∨ d = 9 ∨ d = 10 ∨ d = 11 ∨ d = 12 ∨ d = 13 ∨ d = 14 ∨ d = 15)
    as Hcases by lia.
  repeat (destruct Hcases as [->|Hcases]; [reflexivity|]). by subst.
Qed.

Lemma hex_le_value fuel n :
  0 <= n < 16 ^ Z.of_nat fuel →
  fold_right (λ d acc, acc * 16 + d) 0 (hex_le fuel n) = n
  ∧ Forall (λ d, 0 <= d < 16) (hex_le fuel n).
Proof.
  revert n. induction fuel as [|fuel IH]; intros n Hn.
  { cbn in *. split; [lia|constructor]. }
  cbn [hex_le]. destruct (Z.ltb_spec n 16).
  - cbn. split; [lia|]. repeat constructor; lia.
  - rewrite Nat2Z.inj_succ, Z.pow_succ_r in Hn by lia.
    destruct (IH (n / 16)) as [Hv Hr].
    { split; [apply Z.div_pos; lia|apply Z.div_lt_upper_bound; lia]. }
    cbn [fold_right]. rewrite Hv. split.
    + pose proof (Z.div_mod n 16). lia.
    + constructor; [apply Z.mod_pos_bound; lia|done].
Qed.

Lemma parse_hex_zeros k s : parse_hex (repeat "0"%char k ++ s) = parse_hex s.
Proof.
  unfold parse_hex. induction k as [|k IH]; [done|]. cbn [repeat app fold_left].
  exact IH.
Qed.

Lemma fold_left_hex_digits ds acc :
  Forall (λ d, 0 <= d < 16) ds →
  fold_left (λ a c, a * 16 + digit_value c) (map hex_digit ds) acc
  = fold_left (λ a d, a * 16 + d) ds acc.
Proof.
  intros Hds. revert acc.
  induction Hds as [|d ds Hd _ IH]; intros acc; cbn [map fold_left]; [done|].
  rewrite digit_value_hex_digit by done. apply IH.
Qed.

Lemma parse_hex_digits ds :
  Forall (λ d, 0 <= d < 16) ds →
  parse_hex (map hex_digit (rev ds)) = fold_right (λ d acc, acc * 16 + d) 0 ds.
Proof.
  intros Hds. unfold parse_hex.
  rewrite fold_left_hex_digits by by apply Forall_rev.
  rewrite <- fold_left_rev_right. by rewrite rev_involutive.
Qed.

(** X18. The text ["{0:#010x}"] produces for a non-negative value is [0x]
    followed by at least eight hexadecimal digits that denote the value
    itself: nothing is truncated, a value of 2^32 or more simply widens the
    field.  For a 32-bit value there are exactly eight digits, so a due time
    of two 32-bit halves is always 21 characters long. *)
Theorem due_time_text_denotes_the_value :
  ∀ n : Z,
    0 <= n →
    ∃ body,
      list_ascii_of_string (format_hash_010x n) = "0"%char :: "x"%char :: body
      ∧ parse_hex body = n
      ∧ (8 ≤ length body)%nat
      ∧ (n < 2 ^ 32 → length body = 8%nat)
      ∧ (∀ m, 0 <= m < 2 ^ 32 → n < 2 ^ 32 →
           String.length (format_hash_010x n +:+ ":" +:+ format_hash_010x m)
           = 21%nat).
Proof.
  intros n Hn.
  assert (Hlen : ∀ k, 0 <= k < 2 ^ 32 →
            length (list_ascii_of_string (format_hash_010x k)) = 10%nat).
  { intros k Hk. rewrite format_hash_010x_u32 by done. reflexivity. }
  assert (Hdue : ∀ m, 0 <= m < 2 ^ 32 → n < 2 ^ 32 →
            String.length (format_hash_010x n +:+ ":" +:+ format_hash_010x m)
            = 21%nat).
  { intros m Hm H32. rewrite !format_hash_010x_u32 by lia. reflexivity. }
  set (body := repeat "0"%char (10 - 0 - 2 - length (hex_digits n))
               ++ hex_digits n).
  assert (Htext : list_ascii_of_string (format_hash_010x n)
                  = "0"%char :: "x"%char :: body).
  { unfold format_hash_010x. destruct (Z.ltb_spec n 0); [lia|].
    rewrite Z.abs_eq by lia. cbn [length app].
    apply list_ascii_of_string_of_list_ascii. }
  exists body. split; [exact Htext|].
  destruct (hex_le_value (S (Z.to_nat (Z.log2 n))) n) as [Hv Hr].
  { split; [done|by apply hex_fuel_enough]. }
  split; [|split; [|split]].
  - unfold body, hex_digits. by rewrite parse_hex_zeros, parse_hex_digits.
  - unfold body. rewrite length_app, repeat_length. lia.
  - intros H32. specialize (Hlen n ltac:(lia)). rewrite Htext in Hlen.
    cbn [length] in Hlen. lia.
  - exact Hdue.
Qed.

Lemma due_time_text_denotes_the_value_witness :
  ∃ body,
    list_ascii_of_string (format_hash_010x 0x80000000)
    = "0"%char :: "x"%char :: body
    ∧ parse_hex body = 0x80000000
    ∧ (8 ≤ length body)%nat
    ∧ (0x80000000 < 2 ^ 32 → length body = 8%nat)
    ∧ (∀ m, 0 <= m < 2 ^ 32 → 0x80000000 < 2 ^ 32 →
         String.length (format_hash_010x 0x80000000 +:+ ":" +:+ format_hash_010x m)
         = 21%nat).
Proof. apply (due_time_text_denotes_the_value 0x80000000). lia. Defined.

(* ===================================================================== *)
(** ** Which versions are left out, and where the build counts *)
(* ===================================================================== *)

(** X19. No branch is selected exactly for the versions below (5,1), for
    (5, minor) with minor other than 1 and 2, and for (6, minor) with a
    negative minor; every other version selects a branch.  The build number
    is consulted for version (5,2) only: for any other version the branch
    is the same whatever the build and the memory model. *)
Theorem unsupported_versions_and_the_build :
  ∀ (major minor build : Z) (bits : option string),
    (select_branch major minor build bits = None
     ↔ major < 5 ∨ (major = 5 ∧ minor ≠ 1 ∧ minor ≠ 2) ∨ (major = 6 ∧ minor < 0))
    ∧ (∀ build' bits',
         ¬ (major = 5 ∧ minor = 2) →
         select_branch major minor build' bits'
         = select_branch major minor build bits).
Proof.
  intros major minor build bits. split; [apply select_branch_none|].
  intros build' bits' Hne.
  unfold select_branch, version_eq, version_ge. cbn [fst snd].
  destruct (Z.eqb_spec major 5), (Z.eqb_spec minor 2); cbn; try done; lia.
Qed.

(* ===================================================================== *)
(** ** The decoder as a function of the stored value *)
(* ===================================================================== *)

Lemma encode_decode v o n a :
  Bits.is_u64 v → Bits.is_u64 o → Bits.is_u64 n →
  encode (decode v o n a) o n a = v.
Proof.
  intros Hv Ho Hn. unfold encode. rewrite decode_xor_always.
  assert (Hx : Bits.is_u64 (Z.lxor v n)) by by apply lxor_u64.
  rewrite bswap_involutive by (apply lxor_u64; [by apply rol_u64|done]).
  rewrite lxor_cancel_r, ror_rol by done.
  apply lxor_cancel_r.
Qed.

(** X20. With the byte swap and rotation as section 4.4 of the
    specification describes them, the transform applied by the property is
    one-to-one in the stored value for fixed record offset and secrets (two
    different stored values never decode to the same pointer), and the
    decoded pointer is again a 64-bit value. *)
Theorem decode_is_one_to_one_and_64_bit :
  ∀ value value' offset never always : Z,
    Bits.is_u64 value → Bits.is_u64 value' → Bits.is_u64 offset →
    Bits.is_u64 never → Bits.is_u64 always →
    Bits.is_u64 (decode value offset never always)
    ∧ (decode value offset never always = decode value' offset never always →
       value = value').
Proof.
  intros v v' o n a Hv Hv' Ho Hn Ha. split.
  - unfold decode. apply lxor_u64; [apply bswap_u64|done].
  - intros Heq.
    rewrite <- (encode_decode v o n a), <- (encode_decode v' o n a) by done.
    by rewrite Heq.
Qed.

Lemma decode_is_one_to_one_and_64_bit_witness :
  Bits.is_u64 (decode 0x1122334455667788 0xfffffa8001234560
                      Sample.wait_never Sample.wait_always)
  ∧ (decode 0x1122334455667788 0xfffffa8001234560
            Sample.wait_never Sample.wait_always
     = decode 0x0123456789abcdef 0xfffffa8001234560
              Sample.wait_never Sample.wait_always →
     0x1122334455667788 = 0x0123456789abcdef).
Proof.
  apply (decode_is_one_to_one_and_64_bit 0x1122334455667788 0x0123456789abcdef
           0xfffffa8001234560 Sample.wait_never Sample.wait_always);
    unfold Bits.is_u64; vm_compute; split; congruence.
Defined.
